(** * Scroll restoration for the Next.js pages router: a verification model

    The development embeds [use-scroll-restoration.ts] (the exported store
    functions [saveScrollPos], [restoreScrollPos], [deleteScrollPos] and the
    hook [useScrollRestoration]) together with the part of the browser the
    code talks to: session storage, the scroll offsets of the window and of
    elements, [document.querySelector], [window.history.state.key],
    [setTimeout] and [JSON].

    Numbers.  The offsets the code stores are finite JavaScript numbers.  A
    number is represented by the decimal numeral that [Number::toString]
    (ECMA-262, 6.1.6.1.20) prints for it: its significant digits and the
    position of the decimal point.  [JSON.parse] of a numeral yields the number
    with that decimal value; the rounding to binary64 (and the overflow to an
    infinity) that the engine applies to numerals no number prints as is
    outside the model.

    The page.  Session storage is a finite map from strings to strings that
    accepts every write; [window.history.state] always carries a [key], as
    the pages router maintains it; [scrollTo] puts a container at the
    coordinates it is given, the layout that could clamp them is not
    modelled.  Pending timers are a list, and any of them may fire next: the
    delay is kept with the timer and not interpreted.  Every access to
    storage, every [scrollTo] and every [setTimeout] is appended to a trace.

    React.  The hook has the [key] of the last render, the key a [setKey]
    queued for the next render, and the handlers the last run of the effect
    attached together with the variables they close over. *)

From Stdlib Require Import Ascii String ZArith Lia.
From stdpp Require Import base option list strings gmap.

Local Open Scope Z_scope.

(** ** Decimal digits *)

Inductive digit : Type :=
  d0 | d1 | d2 | d3 | d4 | d5 | d6 | d7 | d8 | d9.

Definition digit_eqb (a b : digit) : bool :=
  match a, b with
  | d0, d0 | d1, d1 | d2, d2 | d3, d3 | d4, d4
  | d5, d5 | d6, d6 | d7, d7 | d8, d8 | d9, d9 => true
  | _, _ => false
  end.

Definition is_zero_digit (d : digit) : bool := digit_eqb d d0.

Definition digit_char (d : digit) : ascii :=
  match d with
  | d0 => "0" | d1 => "1" | d2 => "2" | d3 => "3" | d4 => "4"
  | d5 => "5" | d6 => "6" | d7 => "7" | d8 => "8" | d9 => "9"
  end%char.

Definition char_digit (c : ascii) : option digit :=
  match c with
  | "0" => Some d0 | "1" => Some d1 | "2" => Some d2 | "3" => Some d3
  | "4" => Some d4 | "5" => Some d5 | "6" => Some d6 | "7" => Some d7
  | "8" => Some d8 | "9" => Some d9 | _ => None
  end%char.

Definition digit_value (d : digit) : Z :=
  match d with
  | d0 => 0 | d1 => 1 | d2 => 2 | d3 => 3 | d4 => 4
  | d5 => 5 | d6 => 6 | d7 => 7 | d8 => 8 | d9 => 9
  end.

Definition value_digit (z : Z) : digit :=
  match z with
  | 1 => d1 | 2 => d2 | 3 => d3 | 4 => d4
  | 5 => d5 | 6 => d6 | 7 => d7 | 8 => d8 | 9 => d9 | _ => d0
  end.

(** The value of a digit sequence, most significant digit first. *)
Definition digits_value (ds : list digit) : Z :=
  fold_left (fun acc d => 10 * acc + digit_value d) ds 0.

(** The digits of a natural number, without leading zeros. *)
Fixpoint digits_of_fuel (fuel : nat) (z : Z) (acc : list digit) : list digit :=
  match fuel with
  | O => acc
  | S f => if z <=? 0 then acc
           else digits_of_fuel f (z / 10) (value_digit (z mod 10) :: acc)
  end.

Definition digits_of (z : Z) : list digit :=
  if z <=? 0 then [d0] else digits_of_fuel (S (Z.to_nat (Z.log2 z))) z [].

(** ** Numbers

    [num_digits] are the significant digits [s] of ECMA-262's
    [Number::toString], [length num_digits] is its [k] and [num_point] its
    [n]: the number is [0.d1d2...dk * 10^n], negated when [num_neg].  Zero
    has no digits.  The two zeros of binary64 are one number here. *)

Record number : Type := Number {
  num_neg : bool;
  num_digits : list digit;
  num_point : Z
}.

Definition zero : number := Number false [] 0.

Definition last_nonzero (ds : list digit) : bool :=
  match last ds with Some d => negb (is_zero_digit d) | None => true end.

Definition head_nonzero (ds : list digit) : bool :=
  match ds with d :: _ => negb (is_zero_digit d) | [] => true end.

(** A number is in normal form when its digit sequence neither starts nor
    ends with a zero, and zero is [zero]. *)
Definition wf_number (x : number) : bool :=
  match num_digits x with
  | [] => negb (num_neg x) && (num_point x =? 0)
  | ds => head_nonzero ds && last_nonzero ds
  end.

(** Dropping the zeros in front of, and at the end of, a digit sequence. *)
Fixpoint strip_leading (ds : list digit) : list digit :=
  match ds with
  | d :: r => if is_zero_digit d then strip_leading r else ds
  | [] => []
  end.

Fixpoint strip_trailing (ds : list digit) : list digit :=
  match ds with
  | d :: r =>
    match strip_trailing r with
    | [] => if is_zero_digit d then [] else [d]
    | r' => d :: r'
    end
  | [] => []
  end.

Definition number_of_Z (z : Z) : number :=
  let ds := digits_of (Z.abs z) in
  let sig := strip_trailing ds in
  match sig with
  | [] => zero
  | _ => Number (z <? 0) sig (Z.of_nat (length ds))
  end.

Definition chars_of_digits (ds : list digit) : list ascii := map digit_char ds.

(** [Number::toString] with radix 10, steps 2 to 10 of ECMA-262, for a
    finite number. *)
Definition number_chars (x : number) : list ascii :=
  let ds := num_digits x in
  let k := Z.of_nat (length ds) in
  let n := num_point x in
  match ds with
  | [] => ["0"%char]
  | d :: tl =>
    (if num_neg x then ["-"%char] else []) ++
    if (k <=? n) && (n <=? 21) then
      chars_of_digits ds ++ replicate (Z.to_nat (n - k)) "0"%char
    else if (0 <? n) && (n <=? 21) then
      chars_of_digits (take (Z.to_nat n) ds) ++ "."%char ::
      chars_of_digits (drop (Z.to_nat n) ds)
    else if (-6 <? n) && (n <=? 0) then
      "0"%char :: "."%char :: replicate (Z.to_nat (- n)) "0"%char ++
      chars_of_digits ds
    else
      digit_char d ::
      (match tl with [] => [] | _ => "."%char :: chars_of_digits tl end) ++
      "e"%char :: (if n - 1 <? 0 then "-"%char else "+"%char) ::
      chars_of_digits (digits_of (Z.abs (n - 1)))
  end.

Definition Number_toString (x : number) : string :=
  string_of_list_ascii (number_chars x).

(** ** Reading a JSON number *)

Fixpoint span_digits (cs : list ascii) : list digit * list ascii :=
  match cs with
  | c :: r =>
    match char_digit c with
    | Some d => let '(ds, r') := span_digits r in (d :: ds, r')
    | None => ([], cs)
    end
  | [] => ([], [])
  end.

(** The normal form of [ip.fp * 10^ex]. *)
Definition normalize (neg : bool) (ip fp : list digit) (ex : Z) : number :=
  let all := ip ++ fp in
  let sig := strip_leading all in
  let lead := Z.of_nat (length all) - Z.of_nat (length sig) in
  match strip_trailing sig with
  | [] => zero
  | ds => Number neg ds (Z.of_nat (length ip) - lead + ex)
  end.

(** The integer part of a JSON number: [0], or digits not starting with 0. *)
Definition valid_int (ip : list digit) : bool :=
  match ip with
  | [] => false
  | [d] => true
  | d :: _ => negb (is_zero_digit d)
  end.

Definition parse_exponent (cs : list ascii) : option Z :=
  match cs with
  | [] => Some 0
  | c :: r =>
    if (Ascii.eqb c "e" || Ascii.eqb c "E")%char then
      let '(sgn, r1) :=
        match r with
        | "-"%char :: r' => (-1, r')
        | "+"%char :: r' => (1, r')
        | _ => (1, r)
        end in
      match span_digits r1 with
      | ((_ :: _) as ep, []) => Some (sgn * digits_value ep)
      | _ => None
      end
    else None
  end.

(** The JSON grammar [-? int frac? exp?] applied to a whole token. *)
Definition parse_unsigned (neg : bool) (cs1 : list ascii) : option number :=
  let '(ip, cs2) := span_digits cs1 in
  if valid_int ip then
    match cs2 with
    | "."%char :: r =>
      match span_digits r with
      | ((_ :: _) as fp, cs3) => normalize neg ip fp <$> parse_exponent cs3
      | _ => None
      end
    | _ => normalize neg ip [] <$> parse_exponent cs2
    end
  else None.

Definition parse_numeral (cs : list ascii) : option number :=
  match cs with
  | "-"%char :: r => parse_unsigned true r
  | _ => parse_unsigned false cs
  end.

(** ** JSON values and [JSON.parse]

    A string of the page is a Rocq [string]; the strings inside a JSON text
    are sequences of UTF-16 code units, because an escape can denote any of
    them. *)

Definition jstring : Type := list N.

Definition jstring_of (s : string) : jstring :=
  map N_of_ascii (list_ascii_of_string s).

#[local] Unset Elimination Schemes.
Inductive json : Type :=
  | JNull
  | JBool (b : bool)
  | JNum (x : number)
  | JStr (s : jstring)
  | JArr (elems : list json)
  | JObj (members : list (jstring * json)).
#[local] Set Elimination Schemes.

Inductive token : Type :=
  | TLBrace | TRBrace | TLBrack | TRBrack | TColon | TComma
  | TLit (v : json).

(** The lexer is a transducer over the characters of the text. *)
Inductive lex_state : Type :=
  | LIdle
  | LNum (acc : list ascii)
  | LWord (acc : list ascii)
  | LStr (acc : jstring)
  | LEsc (acc : jstring)
  | LHex (acc : jstring) (hex : list N).

Definition dquote : ascii := "034"%char.
Definition backslash : ascii := "092"%char.

Definition is_num_char (c : ascii) : bool :=
  match char_digit c with
  | Some _ => true
  | None =>
    match c with
    | "." | "e" | "E" | "+" | "-" => true
    | _ => false
    end%char
  end.

Definition is_letter (c : ascii) : bool :=
  let n := N_of_ascii c in ((97 <=? n) && (n <=? 122))%N.

Definition hex_value (c : ascii) : option N :=
  let n := N_of_ascii c in
  if ((48 <=? n) && (n <=? 57))%N then Some (n - 48)%N
  else if ((97 <=? n) && (n <=? 102))%N then Some (n - 87)%N
  else if ((65 <=? n) && (n <=? 70))%N then Some (n - 55)%N
  else None.

Definition idle_step (c : ascii) : option (list token * lex_state) :=
  match c with
  | " " | "009" | "010" | "013" => Some ([], LIdle)
  | "{" => Some ([TLBrace], LIdle)
  | "}" => Some ([TRBrace], LIdle)
  | "[" => Some ([TLBrack], LIdle)
  | "]" => Some ([TRBrack], LIdle)
  | ":" => Some ([TColon], LIdle)
  | "," => Some ([TComma], LIdle)
  | "034" => Some ([], LStr [])
  | _ =>
    if is_letter c then Some ([], LWord [c])
    else if is_num_char c && negb (Ascii.eqb c "+" || Ascii.eqb c "."
                                   || Ascii.eqb c "e" || Ascii.eqb c "E")
    then Some ([], LNum [c])
    else None
  end%char.

Definition close_num (acc : list ascii) : option token :=
  (fun x => TLit (JNum x)) <$> parse_numeral acc.

Definition close_word (acc : list ascii) : option token :=
  let w := string_of_list_ascii acc in
  if String.eqb w "true" then Some (TLit (JBool true))
  else if String.eqb w "false" then Some (TLit (JBool false))
  else if String.eqb w "null" then Some (TLit JNull)
  else None.

Definition escape_code (c : ascii) : option N :=
  match c with
  | "034" => Some 34 | "092" => Some 92 | "/" => Some 47
  | "b" => Some 8 | "f" => Some 12 | "n" => Some 10
  | "r" => Some 13 | "t" => Some 9
  | _ => None
  end%char%N.

Definition lex_step (st : lex_state) (c : ascii)
  : option (list token * lex_state) :=
  match st with
  | LIdle => idle_step c
  | LNum acc =>
    if is_num_char c then Some ([], LNum (acc ++ [c]))
    else
      t ← close_num acc;
      '(ts, st') ← idle_step c;
      Some (t :: ts, st')
  | LWord acc =>
    if is_letter c then Some ([], LWord (acc ++ [c]))
    else
      t ← close_word acc;
      '(ts, st') ← idle_step c;
      Some (t :: ts, st')
  | LStr acc =>
    if Ascii.eqb c dquote then Some ([TLit (JStr acc)], LIdle)
    else if Ascii.eqb c backslash then Some ([], LEsc acc)
    else if (N_of_ascii c <? 32)%N then None
    else Some ([], LStr (acc ++ [N_of_ascii c]))
  | LEsc acc =>
    if Ascii.eqb c "u" then Some ([], LHex acc [])
    else
      n ← escape_code c;
      Some ([], LStr (acc ++ [n]))
  | LHex acc hex =>
    h ← hex_value c;
    match hex with
    | [h1; h2; h3] =>
      Some ([], LStr (acc ++ [((h1 * 16 + h2) * 16 + h3) * 16 + h]%N))
    | _ => Some ([], LHex acc (hex ++ [h]))
    end
  end.

Definition lex_finish (st : lex_state) : option (list token) :=
  match st with
  | LIdle => Some []
  | LNum acc => t ← close_num acc; Some [t]
  | LWord acc => t ← close_word acc; Some [t]
  | _ => None
  end.

Fixpoint lex (st : lex_state) (cs : list ascii) : option (list token) :=
  match cs with
  | [] => lex_finish st
  | c :: r =>
    '(ts, st') ← lex_step st c;
    rest ← lex st' r;
    Some (ts ++ rest)
  end.

(** The parser is a pushdown automaton over the tokens. *)
Inductive frame : Type :=
  | FArr (done : list json)
  | FObj (done : list (jstring * json)) (key : jstring).

Inductive pstate : Type :=
  | PValue (stk : list frame)
  | PArrStart (stk : list frame)
  | PObjStart (stk : list frame)
  | PObjKey (done : list (jstring * json)) (stk : list frame)
  | PObjColon (done : list (jstring * json)) (key : jstring) (stk : list frame)
  | PArrNext (done : list json) (stk : list frame)
  | PObjNext (done : list (jstring * json)) (stk : list frame)
  | PDone (v : json).

Definition reduce (v : json) (stk : list frame) : pstate :=
  match stk with
  | [] => PDone v
  | FArr done :: stk' => PArrNext (done ++ [v]) stk'
  | FObj done k :: stk' => PObjNext (done ++ [(k, v)]) stk'
  end.

Definition value_token (t : token) (stk : list frame) : option pstate :=
  match t with
  | TLit v => Some (reduce v stk)
  | TLBrack => Some (PArrStart stk)
  | TLBrace => Some (PObjStart stk)
  | _ => None
  end.

Definition parse_step (st : pstate) (t : token) : option pstate :=
  match st with
  | PValue stk => value_token t stk
  | PArrStart stk =>
    match t with
    | TRBrack => Some (reduce (JArr []) stk)
    | _ => value_token t (FArr [] :: stk)
    end
  | PObjStart stk =>
    match t with
    | TRBrace => Some (reduce (JObj []) stk)
    | TLit (JStr k) => Some (PObjColon [] k stk)
    | _ => None
    end
  | PObjKey done stk =>
    match t with
    | TLit (JStr k) => Some (PObjColon done k stk)
    | _ => None
    end
  | PObjColon done k stk =>
    match t with
    | TColon => Some (PValue (FObj done k :: stk))
    | _ => None
    end
  | PArrNext done stk =>
    match t with
    | TComma => Some (PValue (FArr done :: stk))
    | TRBrack => Some (reduce (JArr done) stk)
    | _ => None
    end
  | PObjNext done stk =>
    match t with
    | TComma => Some (PObjKey done stk)
    | TRBrace => Some (reduce (JObj done) stk)
    | _ => None
    end
  | PDone _ => None
  end.

Fixpoint parse_tokens (st : pstate) (ts : list token) : option json :=
  match ts with
  | [] => match st with PDone v => Some v | _ => None end
  | t :: r => st' ← parse_step st t; parse_tokens st' r
  end.

(** [JSON.parse]: [None] is a thrown [SyntaxError]. *)
Definition JSON_parse (text : string) : option json :=
  ts ← lex LIdle (list_ascii_of_string text);
  parse_tokens (PValue []) ts.

Definition text (cs : list ascii) : string := string_of_list_ascii cs.

(** ** Scroll positions and their JSON text *)

Record ScrollPos : Type := { x : number; y : number }.

Definition origin : ScrollPos := {| x := zero; y := zero |}.

Definition wf_pos (p : ScrollPos) : bool := wf_number (x p) && wf_number (y p).

(** The object literal [{ x: ..., y: ... }] as a JavaScript value. *)
Definition pos_object (p : ScrollPos) : json :=
  JObj [(jstring_of "x", JNum (x p)); (jstring_of "y", JNum (y p))].

(** [JSON.stringify] of an object with the two number properties [x] and
    [y], in the order the literal lists them. *)
Definition stringify_chars (p : ScrollPos) : list ascii :=
  "{"%char :: dquote :: "x"%char :: dquote :: ":"%char :: number_chars (x p) ++
  ","%char :: dquote :: "y"%char :: dquote :: ":"%char :: number_chars (y p) ++
  ["}"%char].

Definition JSON_stringify (p : ScrollPos) : string := text (stringify_chars p).

(** ** What [scrollTo] makes of its arguments

    [scrollTo(x, y)] converts both arguments with [ToNumber] and replaces a
    result that is not finite by 0 (CSSOM View, "normalize non-finite
    values").  [None] stands for [undefined] among the values and for [NaN]
    and the infinities among the numbers.  A conversion throws a [TypeError]
    when it meets an object that yields no primitive: the members of an
    object that [JSON.parse] made are never functions, so an own member
    named [toString] hides [Object.prototype.toString] and leaves
    [OrdinaryToPrimitive] without a method to call.  Such a conversion is
    [None]. *)

Definition jsvalue : Type := option json.

Definition is_js_space (n : N) : bool :=
  (((9 <=? n) && (n <=? 13)) || (n =? 32) || (n =? 160) || (n =? 5760)
   || ((8192 <=? n) && (n <=? 8202)) || (n =? 8232) || (n =? 8233)
   || (n =? 8239) || (n =? 8287) || (n =? 12288) || (n =? 65279))%N.

Fixpoint trim_left (s : jstring) : jstring :=
  match s with
  | n :: r => if is_js_space n then trim_left r else s
  | [] => []
  end.

Definition trim (s : jstring) : jstring :=
  reverse (trim_left (reverse (trim_left s))).

Definition chars_of_units (s : jstring) : option (list ascii) :=
  mapM (fun n => if (n <? 256)%N then Some (ascii_of_N n) else None) s.

(** [StrDecimalLiteral]: a sign, then [Infinity] or digits with an optional
    fraction and exponent; one of the two digit sequences may be empty. *)
Definition str_decimal (cs : list ascii) : option number :=
  let '(neg, cs1) :=
    match cs with
    | "-"%char :: r => (true, r)
    | "+"%char :: r => (false, r)
    | _ => (false, cs)
    end in
  let '(ip, cs2) := span_digits cs1 in
  let '(fp, cs3) :=
    match cs2 with
    | "."%char :: r => span_digits r
    | _ => ([], cs2)
    end in
  match ip ++ fp with
  | [] => None
  | _ => normalize neg ip fp <$> parse_exponent cs3
  end.

(** [NonDecimalIntegerLiteral]: the digits after [0x], [0o] or [0b]. *)
Definition str_radix (radix : N) (cs : list ascii) : option number :=
  match cs with
  | [] => None
  | _ =>
    hs ← mapM (fun c => h ← hex_value c; if (h <? radix)%N then Some h else None) cs;
    Some (number_of_Z (Z.of_N (fold_left (fun a h => a * radix + h)%N hs 0%N)))
  end.

Definition StringToNumber (s : jstring) : option number :=
  match trim s with
  | [] => Some zero
  | t =>
    cs ← chars_of_units t;
    match cs with
    | "0"%char :: c :: r =>
      if (Ascii.eqb c "x" || Ascii.eqb c "X")%char then str_radix 16 r
      else if (Ascii.eqb c "o" || Ascii.eqb c "O")%char then str_radix 8 r
      else if (Ascii.eqb c "b" || Ascii.eqb c "B")%char then str_radix 2 r
      else str_decimal cs
    | _ => str_decimal cs
    end
  end.

(** An object has an own member of that name. *)
Definition has_own (members : list (jstring * json)) (name : string) : bool :=
  bool_decide (jstring_of name ∈ members.*1).

(** [ToString] of a value [JSON.parse] produced, [None] when it throws; an
    array joins its elements with commas, printing nothing for [null]; an
    object prints as [[object Object]] unless an own [toString] member is in
    the way. *)
Fixpoint ToString (v : json) : option jstring :=
  match v with
  | JNull => Some (jstring_of "null")
  | JBool true => Some (jstring_of "true")
  | JBool false => Some (jstring_of "false")
  | JNum n => Some (jstring_of (Number_toString n))
  | JStr s => Some s
  | JArr elems =>
    (fix join (l : list json) : option jstring :=
       let elem e := match e with JNull => Some [] | _ => ToString e end in
       match l with
       | [] => Some []
       | [e] => elem e
       | e :: r => s ← elem e; rest ← join r; Some (s ++ 44%N :: rest)
       end) elems
  | JObj members =>
    if has_own members "toString" then None
    else Some (jstring_of "[object Object]")
  end.

(** [ToNumber]: the outer [None] is a thrown [TypeError], the inner one a
    number that is not finite. *)
Definition ToNumber (v : jsvalue) : option (option number) :=
  match v with
  | None => Some None
  | Some JNull => Some (Some zero)
  | Some (JBool b) => Some (Some (if b then number_of_Z 1 else zero))
  | Some (JNum n) => Some (Some n)
  | Some (JStr s) => Some (StringToNumber s)
  | Some (JArr elems) => StringToNumber <$> ToString (JArr elems)
  | Some (JObj members) =>
    if has_own members "toString" then None else Some None
  end.

(** The coordinate [scrollTo] takes from an argument, [None] when the
    conversion throws. *)
Definition scroll_coord (v : jsvalue) : option number :=
  default zero <$> ToNumber v.

(** ** The browser *)

Inductive exn : Type :=
  | SyntaxError       (* JSON.parse on a malformed text *)
  | TypeError         (* a property read on null, a value without a primitive *)
  | DOMSyntaxError.   (* querySelector on a selector that is not valid CSS *)

Inductive Result (A : Type) : Type :=
  | Ok (a : A)
  | Throw (e : exn).
Arguments Ok {A} a.
Arguments Throw {A} e.

Inductive target : Type :=
  | Viewport
  | Element (e : nat).

(** The three outcomes of [document.querySelector]. *)
Inductive query_result : Type :=
  | QInvalid
  | QNull
  | QElement (e : nat).

(** The closure handed to [setTimeout] keeps the [selector] of the render
    that created it. *)
Record Timer : Type := { timer_delay : N; timer_selector : option string }.

Inductive Effect : Type :=
  | GetItem (k : string)
  | SetItem (k v : string)
  | RemoveItem (k : string)
  | ScrollTo (t : target) (p : ScrollPos)
  | SetTimeout (t : Timer)
  | Uncaught (e : exn).

Record World : Type := {
  storage : gmap string string;          (* sessionStorage *)
  window_scroll : ScrollPos;             (* window.scrollX, window.scrollY *)
  element_scroll : gmap nat ScrollPos;   (* scrollLeft, scrollTop per element *)
  document : string -> query_result;     (* document.querySelector *)
  history_key : string;                  (* window.history.state.key *)
  timers : list Timer;                   (* pending setTimeout callbacks *)
  trace : list Effect                    (* what was done so far, oldest first *)
}.

Definition with_storage (f : gmap string string -> gmap string string) (w : World) : World :=
  {| storage := f (storage w); window_scroll := window_scroll w;
     element_scroll := element_scroll w; document := document w;
     history_key := history_key w; timers := timers w; trace := trace w |}.

Definition with_scroll (t : target) (p : ScrollPos) (w : World) : World :=
  {| storage := storage w;
     window_scroll := match t with Viewport => p | Element _ => window_scroll w end;
     element_scroll := match t with
                       | Viewport => element_scroll w
                       | Element e => <[e := p]> (element_scroll w)
                       end;
     document := document w; history_key := history_key w;
     timers := timers w; trace := trace w |}.

Definition with_history_key (k : string) (w : World) : World :=
  {| storage := storage w; window_scroll := window_scroll w;
     element_scroll := element_scroll w; document := document w;
     history_key := k; timers := timers w; trace := trace w |}.

Definition with_timers (f : list Timer -> list Timer) (w : World) : World :=
  {| storage := storage w; window_scroll := window_scroll w;
     element_scroll := element_scroll w; document := document w;
     history_key := history_key w; timers := f (timers w); trace := trace w |}.

Definition record (e : Effect) (w : World) : World :=
  {| storage := storage w; window_scroll := window_scroll w;
     element_scroll := element_scroll w; document := document w;
     history_key := history_key w; timers := timers w;
     trace := trace w ++ [e] |}.

(** The offset of a scroll container; an element never scrolled is at the
    origin. *)
Definition offset (t : target) (w : World) : ScrollPos :=
  match t with
  | Viewport => window_scroll w
  | Element e => default origin (element_scroll w !! e)
  end.

(** *** Computations that change a state and may throw *)

Definition M (S A : Type) : Type := S -> Result A * S.

Definition ret {S A} (a : A) : M S A := fun s => (Ok a, s).
Definition throw {S A} (e : exn) : M S A := fun s => (Throw e, s).
Definition bind {S A B} (m : M S A) (k : A -> M S B) : M S B :=
  fun s => match m s with
           | (Ok a, s') => k a s'
           | (Throw e, s') => (Throw e, s')
           end.
Definition gets {S A} (f : S -> A) : M S A := fun s => (Ok (f s), s).
Definition modify {S} (f : S -> S) : M S unit := fun s => (Ok tt, f s).

Declare Scope js_scope.
Delimit Scope js_scope with js.
Notation "'let!' x ':=' m 'in' k" := (bind m (fun x => k))
  (at level 10, x name, m at level 100, k at level 200) : js_scope.
Notation "m '>>' k" := (bind m (fun _ => k))
  (at level 90, right associativity) : js_scope.
Local Open Scope js_scope.

(** *** The capabilities the code uses *)

Definition getItem (k : string) : M World (option string) :=
  modify (record (GetItem k)) >> gets (fun w => storage w !! k).

Definition setItem (k v : string) : M World unit :=
  modify (fun w => record (SetItem k v) (with_storage <[k := v]> w)).

Definition removeItem (k : string) : M World unit :=
  modify (fun w => record (RemoveItem k) (with_storage (delete k) w)).

Definition querySelector (selector : string) : M World (option nat) :=
  let! q := gets (fun w => document w selector) in
  match q with
  | QInvalid => throw DOMSyntaxError
  | QNull => ret None
  | QElement e => ret (Some e)
  end.

Definition scrollTo (t : target) (vx vy : jsvalue) : M World unit :=
  match scroll_coord vx, scroll_coord vy with
  | Some px, Some py =>
    let p := {| x := px; y := py |} in
    modify (fun w => record (ScrollTo t p) (with_scroll t p w))
  | _, _ => throw TypeError
  end.

Definition setTimeout (t : Timer) : M World unit :=
  modify (fun w => record (SetTimeout t) (with_timers (fun ts => ts ++ [t]) w)).

(** [v.name]: a read on [null] throws, a property that is not there is
    [undefined]; of several members with one name the last counts. *)
Definition get_prop {S} (v : json) (name : string) : M S jsvalue :=
  match v with
  | JNull => throw TypeError
  | JObj members =>
    ret (snd <$> last (filter (fun m => fst m = jstring_of name) members))
  | _ => ret None
  end.

(** A string is truthy when it is given and not empty. *)
Definition truthy (s : option string) : option string :=
  match s with
  | Some EmptyString => None
  | _ => s
  end.

Definition storage_key (key : string) : string := "scrollPos:" +:+ key.

(** ** The store: [saveScrollPos], [restoreScrollPos], [deleteScrollPos] *)

(** Save the scroll position of the specified element or window to session
    storage. *)
Definition saveScrollPos (key : string) (selector : option string) : M World unit :=
  let! scrollPos := gets window_scroll in
  let! scrollPos :=
    match truthy selector with
    | Some sel =>
      let! element := querySelector sel in
      match element with
      | Some e => gets (offset (Element e))
      | None => ret scrollPos
      end
    | None => ret scrollPos
    end in
  setItem (storage_key key) (JSON_stringify scrollPos).

(** [json ? JSON.parse(json) : { x: 0, y: 0 }] *)
Definition stored_value (item : option string) : M World json :=
  match truthy item with
  | Some txt =>
    match JSON_parse txt with
    | Some v => ret v
    | None => throw SyntaxError
    end
  | None => ret (pos_object origin)
  end.

(** Restore the scroll position of the specified element or window from
    session storage. *)
Definition restoreScrollPos (key : string) (selector : option string) : M World unit :=
  let! json := getItem (storage_key key) in
  let! scrollPos := stored_value json in
  match truthy selector with
  | Some sel =>
    let! element := querySelector sel in
    match element with
    | Some e =>
      let! vx := get_prop scrollPos "x" in
      let! vy := get_prop scrollPos "y" in
      scrollTo (Element e) vx vy
    | None => ret tt
    end
  | None =>
    let! vx := get_prop scrollPos "x" in
    let! vy := get_prop scrollPos "y" in
    scrollTo Viewport vx vy
  end.

(** Delete the saved scroll position from session storage. *)
Definition deleteScrollPos (key : string) : M World unit :=
  removeItem (storage_key key).

(** The second copy of the store in the repository (plain JavaScript): it
    uses the result of [querySelector] without testing it. *)
Module V2.

Definition saveScrollPos (key : string) (selector : option string) : M World unit :=
  let! scrollPos := gets window_scroll in
  let! scrollPos :=
    match truthy selector with
    | Some sel =>
      let! element := querySelector sel in
      match element with
      | Some e => gets (offset (Element e))
      | None => throw TypeError
      end
    | None => ret scrollPos
    end in
  setItem (storage_key key) (JSON_stringify scrollPos).

Definition restoreScrollPos (key : string) (selector : option string) : M World unit :=
  let! json := getItem (storage_key key) in
  let! scrollPos := stored_value json in
  match truthy selector with
  | Some sel =>
    let! element := querySelector sel in
    match element with
    | Some e =>
      let! vx := get_prop scrollPos "x" in
      let! vy := get_prop scrollPos "y" in
      scrollTo (Element e) vx vy
    | None => throw TypeError
    end
  | None =>
    let! vx := get_prop scrollPos "x" in
    let! vy := get_prop scrollPos "y" in
    scrollTo Viewport vx vy
  end.

Definition deleteScrollPos (key : string) : M World unit :=
  removeItem (storage_key key).

End V2.

(** ** The hook [useScrollRestoration] *)

Record Options : Type := {
  enabled : bool;
  selector : option string;
  delay : option N
}.

(** What the handlers of one run of the effect close over. *)
Record Env : Type := {
  env_key : string;
  env_selector : option string;
  env_delay : option N
}.

(** [key_state] is the [key] of the last render, [key_queued] a [setKey]
    that React has not rendered yet, [listeners] the handlers that the last
    run of the effect attached. *)
Record Hook : Type := {
  props : Options;
  key_state : string;
  key_queued : option string;
  listeners : option Env
}.

Record System : Type := { world : World; hook : Hook }.

Definition in_world {A} (m : M World A) : M System A :=
  fun s => let '(r, w) := m (world s) in (r, {| world := w; hook := hook s |}).

Definition setKey (k : string) : M System unit :=
  modify (fun s =>
    {| world := world s;
       hook := {| props := props (hook s); key_state := key_state (hook s);
                  key_queued := Some k; listeners := listeners (hook s) |} |}).

(** [window.history.state.key] *)
Definition historyKey : M World string := gets history_key.

(** Delete the saved scroll position when the window unloads. *)
Definition onBeforeUnload (env : Env) : M System unit :=
  in_world (
    deleteScrollPos (env_key env) >>
    let! k := historyKey in
    deleteScrollPos k).

(** Save the scroll position when the route changes. *)
Definition onRouteChangeStart (env : Env) : M System unit :=
  in_world (saveScrollPos (env_key env) (env_selector env)).

(** The body of the arrow function given to [setTimeout], and of the
    branch without a delay. *)
Definition restore_then_delete (selector : option string) : M World unit :=
  let! k := historyKey in
  restoreScrollPos k selector >>
  let! k := historyKey in
  deleteScrollPos k.

Definition timer_callback (t : Timer) : M World unit :=
  restore_then_delete (timer_selector t).

(** Restore the scroll position when a route change is complete. *)
Definition onRouteChangeComplete (env : Env) : M System unit :=
  let! k := in_world historyKey in
  setKey k >>
  match env_delay env with
  | Some d =>
    in_world (setTimeout {| timer_delay := d; timer_selector := env_selector env |})
  | None => in_world (restore_then_delete (env_selector env))
  end.

(** The effect with dependencies [enabled, key, selector]: its body and the
    clean-up it returns. *)
Definition subscribe (o : Options) (key : string) : option Env :=
  if enabled o
  then Some {| env_key := key; env_selector := selector o; env_delay := delay o |}
  else None.

Definition deps (o : Options) (key : string) : bool * string * option string :=
  (enabled o, key, selector o).

(** The first render: [key] is the empty string, the first effect calls
    [setKey], the second attaches the handlers. *)
Definition mount (o : Options) (w : World) : System :=
  {| world := w;
     hook := {| props := o; key_state := EmptyString;
                key_queued := Some (history_key w);
                listeners := subscribe o EmptyString |} |}.

(** A later render with options [o]: the queued key becomes the key, and
    the effect runs again (clean-up first) when a dependency changed. *)
Definition render (o : Options) (s : System) : System :=
  let h := hook s in
  let key := default (key_state h) (key_queued h) in
  {| world := world s;
     hook := {| props := o; key_state := key; key_queued := None;
                listeners :=
                  if decide (deps o key = deps (props h) (key_state h))
                  then listeners h
                  else subscribe o key |} |}.

(** Unmounting runs the clean-up of the effect: the three handlers are
    detached. *)
Definition unmount (s : System) : System :=
  {| world := world s;
     hook := {| props := props (hook s); key_state := key_state (hook s);
                key_queued := key_queued (hook s); listeners := None |} |}.

Inductive Signal : Type := BeforeUnload | RouteChangeStart | RouteChangeComplete.

Definition handler (sig : Signal) : Env -> M System unit :=
  match sig with
  | BeforeUnload => onBeforeUnload
  | RouteChangeStart => onRouteChangeStart
  | RouteChangeComplete => onRouteChangeComplete
  end.

(** A signal reaches the handler that is attached, if one is. *)
Definition dispatch (sig : Signal) : M System unit :=
  fun s => match listeners (hook s) with
           | Some env => handler sig env s
           | None => (Ok tt, s)
           end.

(** The [i]-th pending timer fires: it leaves the list and its callback
    runs. *)
Definition fire_timer (i : nat) : M System unit :=
  fun s => match timers (world s) !! i with
           | Some t =>
             in_world (modify (with_timers (delete i)) >> timer_callback t) s
           | None => (Ok tt, s)
           end.

Inductive Event : Type :=
  | EvRender (o : Options)          (* React renders the consumer again *)
  | EvUnmount
  | EvSignal (sig : Signal)
  | EvTimer (i : nat)
  | EvNavigate (k : string)         (* the router makes [k] the history entry *)
  | EvScroll (t : target) (p : ScrollPos).   (* the user scrolls *)

(** An exception that leaves a handler is not caught by the hook; the trace
    keeps it. *)
Definition settle (r : Result unit * System) : System :=
  match r with
  | (Ok _, s) => s
  | (Throw e, s) => {| world := record (Uncaught e) (world s); hook := hook s |}
  end.

Definition step (s : System) (ev : Event) : System :=
  match ev with
  | EvRender o => render o s
  | EvUnmount => unmount s
  | EvSignal sig => settle (dispatch sig s)
  | EvTimer i => settle (fire_timer i s)
  | EvNavigate k => {| world := with_history_key k (world s); hook := hook s |}
  | EvScroll t p => {| world := with_scroll t p (world s); hook := hook s |}
  end.

Definition run (evs : list Event) (s : System) : System := fold_left step evs s.

(** * Vocabulary of the properties *)

(** ** The store functions in closed form *)

(** The rest of a text does not go on with a digit. *)
Definition no_digit_head (r : list ascii) : Prop :=
  match r with
  | [] => True
  | c :: _ => char_digit c = None
  end.

(** The container [saveScrollPos] reads. *)
Definition save_source (selector : option string) (w : World) : Result target :=
  match truthy selector with
  | Some sel =>
    match document w sel with
    | QInvalid => Throw DOMSyntaxError
    | QNull => Ok Viewport
    | QElement e => Ok (Element e)
    end
  | None => Ok Viewport
  end.

(** The container [restoreScrollPos] scrolls, if any. *)
Definition restore_target (selector : option string) (w : World)
  : Result (option target) :=
  match truthy selector with
  | Some sel =>
    match document w sel with
    | QInvalid => Throw DOMSyntaxError
    | QNull => Ok None
    | QElement e => Ok (Some (Element e))
    end
  | None => Ok (Some Viewport)
  end.

(** The value [restoreScrollPos] takes the coordinates from. *)
Definition stored_json (item : option string) : Result json :=
  match truthy item with
  | Some txt =>
    match JSON_parse txt with
    | Some v => Ok v
    | None => Throw SyntaxError
    end
  | None => Ok (pos_object origin)
  end.

(** [v.name] where [v] is not [null]. *)
Definition prop (v : json) (name : string) : jsvalue :=
  match v with
  | JObj members => snd <$> last (filter (fun m => fst m = jstring_of name) members)
  | _ => None
  end.

(** The coordinates [scrollTo] receives from [scrollPos.x, scrollPos.y]. *)
Definition coords (v : json) : Result ScrollPos :=
  match v with
  | JNull => Throw TypeError
  | _ =>
    match scroll_coord (prop v "x"), scroll_coord (prop v "y") with
    | Some px, Some py => Ok {| x := px; y := py |}
    | _, _ => Throw TypeError
    end
  end.

(** The scroll container a selector stands for: the viewport when no
    selector is given, the element when the selector matches one. *)
Definition scroll_container (selector : option string) (w : World) : option target :=
  match truthy selector with
  | Some sel =>
    match document w sel with
    | QElement e => Some (Element e)
    | _ => None
    end
  | None => Some Viewport
  end.

(** ** Pages to run the code on *)

(** A page at the top, with nothing stored, whose only element that a
    selector finds is the one for [#list]. *)
Definition page : World :=
  {| storage := ∅; window_scroll := origin; element_scroll := ∅;
     document := fun sel => if String.eqb sel "#list" then QElement 0 else QNull;
     history_key := "K0"; timers := []; trace := [] |}.

(** The page after the user scrolled a container to whole-number offsets. *)
Definition at_offset (t : target) (px py : Z) (w : World) : World :=
  with_scroll t {| x := number_of_Z px; y := number_of_Z py |} w.

(** The text [saveScrollPos] writes for whole-number offsets. *)
Definition entry (px py : Z) : string :=
  JSON_stringify {| x := number_of_Z px; y := number_of_Z py |}.

(** The page with [txt] stored under the storage key of [key]. *)
Definition with_entry (key : string) (txt : string) (w : World) : World :=
  with_storage <[storage_key key := txt]> w.

(** ** The state of the hook *)

(** The handlers that are attached were built from the key and the selector
    of the last render. *)
Definition attached_ok (h : Hook) : Prop :=
  forall env, listeners h = Some env ->
    enabled (props h) = true
    /\ env_key env = key_state h
    /\ env_selector env = selector (props h).

(** What a handler leaves alone in the hook: everything but the queued key. *)
Definition same_render (h' h : Hook) : Prop :=
  listeners h' = listeners h /\ props h' = props h /\ key_state h' = key_state h.

(** A computation that leaves the render of the hook alone. *)
Definition keeps_render {A} (m : M System A) : Prop :=
  forall s, same_render (hook (m s).2) (hook s).

(** Options of an enabled hook. *)
Definition options (sel : option string) (d : option N) : Options :=
  {| enabled := true; selector := sel; delay := d |}.

(** The consumer mounted on a page and rendered once more, so that the
    handlers hold the key of the page. *)
Definition mounted (o : Options) (w : World) : System := render o (mount o w).

(** The effects that are calls of [scrollTo]. *)
Definition is_scroll (e : Effect) : Prop :=
  match e with ScrollTo _ _ => True | _ => False end.

(** The hook after [setKey k]. *)
Definition queue_key (k : string) (h : Hook) : Hook :=
  {| props := props h; key_state := key_state h;
     key_queued := Some k; listeners := listeners h |}.

(** Rendering with [enabled = false] what was enabled. *)
Definition disable (s : System) : System :=
  render {| enabled := false; selector := selector (props (hook s));
            delay := delay (props (hook s)) |} s.

(** ** Runs of the hook *)

(** A storage key that is not the storage key of any navigation key. *)
Definition foreign_key (k : string) : Prop := forall key, k <> storage_key key.

(** The handlers follow the render, and a hook whose options say
    [enabled = false] has none attached. *)
Definition in_sync (h : Hook) : Prop :=
  attached_ok h /\ (enabled (props h) = false -> listeners h = None).

(** The events of a consumer that stays disabled: it is never rendered with
    [enabled = true]. *)
Definition stays_disabled (ev : Event) : Prop :=
  match ev with
  | EvRender o => enabled o = false
  | _ => True
  end.

(** A hook that has done nothing to the page [w0] it was mounted on. *)
Definition dormant (w0 : World) (s : System) : Prop :=
  listeners (hook s) = None
  /\ enabled (props (hook s)) = false
  /\ storage (world s) = storage w0
  /\ trace (world s) = trace w0
  /\ timers (world s) = [].

(** Two pages that differ at most in the pending timers and in the trace. *)
Definition same_page (w1 w2 : World) : Prop :=
  storage w1 = storage w2
  /\ window_scroll w1 = window_scroll w2
  /\ element_scroll w1 = element_scroll w2
  /\ document w1 = document w2
  /\ history_key w1 = history_key w2.

(** The events of a consumer whose delay option stays [d]. *)
Definition keeps_delay (d : option N) (ev : Event) : Prop :=
  match ev with
  | EvRender o => delay o = d
  | _ => True
  end.

(** * Properties *)

(** ** Printing a number and reading it back *)

Example number_chars_int : Number_toString (number_of_Z 1200) = "1200"%string.
Proof. reflexivity. Qed.
Example number_chars_frac :
  Number_toString (Number false [d1; d2; d3; d4; d5] 3) = "123.45"%string.
Proof. reflexivity. Qed.
Example number_chars_small :
  Number_toString (Number false [d2; d5] (-2)) = "0.0025"%string.
Proof. reflexivity. Qed.
Example number_chars_exp :
  Number_toString (Number true [d1; d5] 22) = "-1.5e+21"%string.
Proof. reflexivity. Qed.
Example number_chars_exp1 :
  Number_toString (Number false [d1] (-6)) = "1e-7"%string.
Proof. reflexivity. Qed.
Example parse_numeral_ex :
  parse_numeral (list_ascii_of_string "-12.50e-3") = Some (Number true [d1; d2; d5] (-1)).
Proof. reflexivity. Qed.

Section NumberRoundTrip.

Lemma char_digit_char d : char_digit (digit_char d) = Some d.
Proof. by destruct d. Qed.

Lemma digit_value_digit m : 0 <= m < 10 -> digit_value (value_digit m) = m.
Proof.
  intros Hm.
  assert (m = 0 \/ m = 1 \/ m = 2 \/ m = 3 \/ m = 4 \/ m = 5 \/ m = 6
          \/ m = 7 \/ m = 8 \/ m = 9) as Hc by lia.
  repeat (destruct Hc as [-> | Hc]; [reflexivity |]). by subst.
Qed.

Lemma span_digits_app ds r :
  no_digit_head r -> span_digits (chars_of_digits ds ++ r) = (ds, r).
Proof.
  intros Hr. induction ds as [| d ds IH].
  - destruct r as [| c r]; [done |].
    change (span_digits (chars_of_digits [] ++ c :: r))
      with (match char_digit c with
            | Some d => let '(ds, r') := span_digits r in (d :: ds, r')
            | None => ([], c :: r)
            end).
    simpl in Hr. by rewrite Hr.
  - change (span_digits (chars_of_digits (d :: ds) ++ r))
      with (match char_digit (digit_char d) with
            | Some d => let '(ds, r') := span_digits (chars_of_digits ds ++ r) in
                        (d :: ds, r')
            | None => ([], chars_of_digits (d :: ds) ++ r)
            end).
    by rewrite char_digit_char, IH.
Qed.

Lemma span_digits_all ds : span_digits (chars_of_digits ds) = (ds, []).
Proof. rewrite <- (app_nil_r (chars_of_digits ds)). by apply span_digits_app. Qed.

Lemma strip_trailing_zeros m : strip_trailing (replicate m d0) = [].
Proof. induction m as [| m IH]; simpl; [done |]. by rewrite IH. Qed.

Lemma strip_trailing_app_zeros ds m :
  strip_trailing (ds ++ replicate m d0) = strip_trailing ds.
Proof.
  induction ds as [| d ds IH]; simpl.
  - apply strip_trailing_zeros.
  - by rewrite IH.
Qed.

Lemma strip_trailing_id ds : last_nonzero ds = true -> strip_trailing ds = ds.
Proof.
  induction ds as [| d ds IH]; [done |].
  unfold last_nonzero. destruct ds as [| e ds].
  - simpl. by destruct (is_zero_digit d).
  - change (last (d :: e :: ds)) with (last (e :: ds)).
    intros H. change (strip_trailing (d :: e :: ds))
      with (match strip_trailing (e :: ds) with
            | [] => if is_zero_digit d then [] else [d]
            | r' => d :: r' end).
    by rewrite (IH H).
Qed.

Lemma strip_leading_zeros m ds :
  strip_leading (replicate m d0 ++ ds) = strip_leading ds.
Proof. induction m as [| m IH]; simpl; done. Qed.

Lemma strip_leading_id ds : head_nonzero ds = true -> strip_leading ds = ds.
Proof. destruct ds as [| d ds]; simpl; [done |]. by destruct (is_zero_digit d). Qed.

Lemma normalize_spec neg ip fp ex z m d tl :
  ip ++ fp = replicate z d0 ++ (d :: tl) ++ replicate m d0 ->
  head_nonzero (d :: tl) = true -> last_nonzero (d :: tl) = true ->
  normalize neg ip fp ex
  = Number neg (d :: tl) (Z.of_nat (length ip) - Z.of_nat z + ex).
Proof.
  intros Hall Hh Hl. unfold normalize. rewrite Hall.
  rewrite strip_leading_zeros.
  assert (head_nonzero ((d :: tl) ++ replicate m d0) = true) as Hh' by done.
  rewrite (strip_leading_id _ Hh'), strip_trailing_app_zeros.
  rewrite (strip_trailing_id _ Hl).
  rewrite (length_app (replicate z d0)), length_replicate.
  f_equal. lia.
Qed.

Lemma digits_value_fuel fuel z acc :
  0 <= z < 2 ^ Z.of_nat fuel ->
  fold_left (fun a d => 10 * a + digit_value d) (digits_of_fuel fuel z acc) 0
  = fold_left (fun a d => 10 * a + digit_value d) acc z.
Proof.
  revert z acc. induction fuel as [| fuel IH]; intros z acc Hz.
  - simpl in *. by replace z with 0 by lia.
  - simpl digits_of_fuel. destruct (Z.leb_spec z 0) as [Hle | Hgt].
    + by replace z with 0 by lia.
    + rewrite IH.
      * simpl. rewrite digit_value_digit by (apply Z.mod_pos_bound; lia).
        f_equal. pose proof (Z.div_mod z 10). lia.
      * rewrite Nat2Z.inj_succ, Z.pow_succ_r in Hz by lia.
        split; [apply Z.div_pos; lia |].
        apply Z.div_lt_upper_bound; lia.
Qed.

Lemma digits_value_of z : 0 <= z -> digits_value (digits_of z) = z.
Proof.
  intros Hz. unfold digits_of, digits_value.
  destruct (Z.leb_spec z 0) as [Hle | Hgt].
  - simpl. lia.
  - rewrite digits_value_fuel; [done |].
    rewrite Nat2Z.inj_succ, Z2Nat.id by apply Z.log2_nonneg.
    pose proof (Z.log2_spec z Hgt). lia.
Qed.

Lemma digits_of_fuel_nonempty fuel z acc :
  acc <> [] -> digits_of_fuel fuel z acc <> [].
Proof.
  revert z acc. induction fuel as [| fuel IH]; intros z acc Hacc; simpl; [done |].
  destruct (z <=? 0); [done |]. by apply IH.
Qed.

Lemma digits_of_nonempty z : digits_of z <> [].
Proof.
  unfold digits_of. destruct (Z.leb_spec z 0) as [Hle | Hgt]; [done |].
  simpl. destruct (Z.leb_spec z 0); [lia |]. by apply digits_of_fuel_nonempty.
Qed.

Lemma parse_exponent_chars e :
  parse_exponent
    ("e"%char :: (if e <? 0 then "-"%char else "+"%char) ::
     chars_of_digits (digits_of (Z.abs e))) = Some e.
Proof.
  pose proof (digits_of_nonempty (Z.abs e)) as Hne.
  pose proof (digits_value_of (Z.abs e) (Z.abs_nonneg e)) as Hv.
  unfold parse_exponent.
  change (Ascii.eqb "e" "e" || Ascii.eqb "e" "E")%char with true. cbv iota.
  destruct (Z.ltb_spec e 0) as [Hneg | Hpos]; cbv iota beta;
    rewrite span_digits_all;
    destruct (digits_of (Z.abs e)) as [| c cs]; try done;
    rewrite Hv; f_equal; lia.
Qed.

Lemma chars_of_digits_app ds es :
  chars_of_digits (ds ++ es) = chars_of_digits ds ++ chars_of_digits es.
Proof. apply map_app. Qed.

Lemma chars_of_digits_zeros m :
  chars_of_digits (replicate m d0) = replicate m "0"%char.
Proof. induction m as [| m IH]; simpl; [done |]. by rewrite <- IH. Qed.

Lemma valid_int_head d tl :
  head_nonzero (d :: tl) = true -> valid_int (d :: tl) = true.
Proof. by destruct tl. Qed.

Lemma parse_unsigned_int neg ip cs2 :
  valid_int ip = true -> cs2 = [] \/ (exists r, cs2 = "e"%char :: r) ->
  parse_unsigned neg (chars_of_digits ip ++ cs2)
  = normalize neg ip [] <$> parse_exponent cs2.
Proof.
  intros Hv Hcs. unfold parse_unsigned.
  rewrite span_digits_app, Hv by (by destruct Hcs as [-> | [r ->]]).
  by destruct Hcs as [-> | [r ->]].
Qed.

Lemma parse_unsigned_frac neg ip f fp cs3 :
  valid_int ip = true -> cs3 = [] \/ (exists r, cs3 = "e"%char :: r) ->
  parse_unsigned neg
    (chars_of_digits ip ++ "."%char :: chars_of_digits (f :: fp) ++ cs3)
  = normalize neg ip (f :: fp) <$> parse_exponent cs3.
Proof.
  intros Hv Hcs. unfold parse_unsigned.
  rewrite span_digits_app, Hv by done.
  by rewrite span_digits_app by (by destruct Hcs as [-> | [r ->]]).
Qed.

Lemma parse_numeral_sign (neg : bool) d r :
  parse_numeral ((if neg then ["-"%char] else []) ++ digit_char d :: r)
  = parse_unsigned neg (digit_char d :: r).
Proof. destruct neg; [done |]. by destruct d. Qed.

Local Ltac numeral_side :=
  first [ by apply valid_int_head | by left | by right; eauto | done ].

Lemma digits_of_fuel_head fuel z acc :
  0 < z < 2 ^ Z.of_nat fuel ->
  exists d tl, digits_of_fuel fuel z acc = d :: tl /\ is_zero_digit d = false.
Proof.
  revert z acc. induction fuel as [| fuel IH]; intros z acc Hz.
  - simpl in Hz. lia.
  - simpl. destruct (Z.leb_spec z 0) as [Hle | _]; [lia |].
    rewrite Nat2Z.inj_succ, Z.pow_succ_r in Hz by lia.
    destruct (Z.eq_dec (z / 10) 0) as [Hq | Hq].
    + assert (0 < z < 10) as Hsmall.
      { pose proof (Z.div_mod z 10). pose proof (Z.mod_pos_bound z 10). lia. }
      rewrite Hq, Z.mod_small by lia.
      exists (value_digit z), acc. split.
      * by destruct fuel.
      * assert (z = 1 \/ z = 2 \/ z = 3 \/ z = 4 \/ z = 5 \/ z = 6
                \/ z = 7 \/ z = 8 \/ z = 9) as Hc by lia.
        repeat (destruct Hc as [-> | Hc]; [reflexivity |]). by subst.
    + apply IH. split.
      * pose proof (Z.div_pos z 10). lia.
      * apply Z.div_lt_upper_bound; lia.
Qed.

Lemma strip_trailing_last ds : last_nonzero (strip_trailing ds) = true.
Proof.
  induction ds as [| d ds IH]; [done |]. simpl.
  destruct (strip_trailing ds) as [| e r].
  - unfold last_nonzero. by destruct (is_zero_digit d) eqn:Hd; simpl; rewrite ?Hd.
  - done.
Qed.

Lemma strip_trailing_head d ds :
  is_zero_digit d = false -> exists r, strip_trailing (d :: ds) = d :: r.
Proof.
  intros Hd. simpl. destruct (strip_trailing ds) as [| e r]; [| by eexists].
  rewrite Hd. by eexists.
Qed.

(** Every whole number is a number in normal form. *)
Lemma wf_number_of_Z z : wf_number (number_of_Z z) = true.
Proof.
  unfold number_of_Z, digits_of.
  destruct (Z.leb_spec (Z.abs z) 0) as [Hle | Hgt]; [done |].
  destruct (digits_of_fuel_head (S (Z.to_nat (Z.log2 (Z.abs z)))) (Z.abs z) [])
    as (d & tl & -> & Hd).
  { rewrite Nat2Z.inj_succ, Z2Nat.id by apply Z.log2_nonneg.
    pose proof (Z.log2_spec _ Hgt). lia. }
  destruct (strip_trailing_head d tl Hd) as [r Hr].
  pose proof (strip_trailing_last (d :: tl)) as Hlast.
  rewrite Hr in *. unfold wf_number. simpl. by rewrite Hd, Hlast.
Qed.

(** Reading back what [Number::toString] printed gives the number. *)
Lemma parse_numeral_chars x :
  wf_number x = true -> parse_numeral (number_chars x) = Some x.
Proof.
  destruct x as [neg ds n]. unfold wf_number, number_chars. simpl.
  destruct ds as [| d tl].
  { intros [Hneg Hn%Z.eqb_eq]%andb_true_iff. destruct neg; [done |]. by subst. }
  intros [Hh Hl]%andb_true_iff.
  set (k := Z.of_nat (length (d :: tl))).
  assert (k = Z.of_nat (length tl) + 1) as Hk by (subst k; cbn [length]; lia).
  clearbody k.
  destruct ((k <=? n) && (n <=? 21)) eqn:HA.
  { (* digits followed by zeros *)
    apply andb_true_iff in HA as [Hkn%Z.leb_le _].
    change (chars_of_digits (d :: tl) ++ ?z)
      with (digit_char d :: (chars_of_digits tl ++ z)).
    rewrite parse_numeral_sign.
    change (digit_char d :: (chars_of_digits tl ++ ?z))
      with (chars_of_digits (d :: tl) ++ z).
    rewrite <- chars_of_digits_zeros, <- chars_of_digits_app.
    rewrite <- (app_nil_r (chars_of_digits _)).
    rewrite parse_unsigned_int by numeral_side.
    simpl fmap. f_equal.
    rewrite (normalize_spec neg _ [] 0 0 (Z.to_nat (n - k)) d tl);
      rewrite ?app_nil_r; try done.
    f_equal. cbn [length]. rewrite length_app, length_replicate. lia. }
  destruct ((0 <? n) && (n <=? 21)) eqn:HB.
  { (* a decimal point inside the digits *)
    apply andb_true_iff in HB as [Hn%Z.ltb_lt Hn21%Z.leb_le].
    apply andb_false_iff in HA as [Hkn%Z.leb_gt | ?%Z.leb_gt]; [| lia].
    destruct (Z.to_nat n) as [| n'] eqn:Hn'; [lia |].
    assert (n' < length tl)%nat as Hlen by lia.
    destruct (drop (S n') (d :: tl)) as [| f fp] eqn:Hdrop.
    { apply (f_equal length) in Hdrop. rewrite length_drop in Hdrop.
      simpl in Hdrop. lia. }
    change (take (S n') (d :: tl)) with (d :: take n' tl).
    change (chars_of_digits (d :: take n' tl) ++ ?z)
      with (digit_char d :: (chars_of_digits (take n' tl) ++ z)).
    rewrite parse_numeral_sign.
    change (digit_char d :: (chars_of_digits (take n' tl) ++ ?z))
      with (chars_of_digits (d :: take n' tl) ++ z).
    rewrite <- (app_nil_r (chars_of_digits (f :: fp))).
    rewrite parse_unsigned_frac by numeral_side.
    simpl fmap. f_equal.
    rewrite (normalize_spec neg _ _ 0 0 0 d tl); rewrite ?app_nil_r; try done.
    - f_equal. cbn [length]. rewrite length_take. lia.
    - rewrite <- Hdrop. change (d :: take n' tl) with (take (S n') (d :: tl)).
      by rewrite take_drop. }
  destruct ((-6 <? n) && (n <=? 0)) eqn:HC.
  { (* zeros between the decimal point and the digits *)
    apply andb_true_iff in HC as [_ Hn%Z.leb_le].
    rewrite (parse_numeral_sign neg d0).
    rewrite <- chars_of_digits_zeros, <- chars_of_digits_app.
    destruct (replicate (Z.to_nat (- n)) d0 ++ d :: tl) as [| f fp] eqn:Hfp.
    { by destruct (Z.to_nat (- n)). }
    rewrite <- (app_nil_r (chars_of_digits (f :: fp))).
    change (digit_char d0 :: "."%char :: ?z)
      with (chars_of_digits [d0] ++ "."%char :: z).
    rewrite parse_unsigned_frac by numeral_side.
    simpl fmap. f_equal. rewrite <- Hfp.
    rewrite (normalize_spec neg _ _ 0 (S (Z.to_nat (- n))) 0 d tl);
      rewrite ?app_nil_r; try done.
    f_equal. cbn [length]. lia. }
  (* exponent notation *)
  rewrite parse_numeral_sign.
  destruct tl as [| t tl].
  - change (digit_char d :: [] ++ ?z) with (chars_of_digits [d] ++ z).
    rewrite parse_unsigned_int by numeral_side.
    rewrite parse_exponent_chars. simpl fmap. f_equal.
    rewrite (normalize_spec neg _ _ (n - 1) 0 0 d []); try done.
    f_equal. cbn [length]. lia.
  - change (digit_char d :: ("."%char :: chars_of_digits (t :: tl)) ++ ?z)
      with (chars_of_digits [d] ++ "."%char :: chars_of_digits (t :: tl) ++ z).
    rewrite parse_unsigned_frac by numeral_side.
    rewrite parse_exponent_chars. simpl fmap. f_equal.
    rewrite (normalize_spec neg _ _ (n - 1) 0 0 d (t :: tl));
      rewrite ?app_nil_r; try done.
    f_equal. cbn [length]. lia.
Qed.

End NumberRoundTrip.

(** ** [JSON.parse] of what [JSON.stringify] wrote *)

Example JSON_parse_nested :
  JSON_parse (text (list_ascii_of_string " [1.5, {" ++ dquote :: list_ascii_of_string "aA"
                    ++ dquote :: list_ascii_of_string ": [true, null]}, -2e3 ] "))
  = Some (JArr [JNum (Number false [d1; d5] 1);
                JObj [([97; 65]%N, JArr [JBool true; JNull])];
                JNum (Number true [d2] 4)]).
Proof. reflexivity. Qed.
Example JSON_parse_empty : JSON_parse EmptyString = None.
Proof. reflexivity. Qed.
Example JSON_parse_bad : JSON_parse "{x:1}" = None.
Proof. reflexivity. Qed.
Example JSON_parse_bad2 : JSON_parse "[1,]" = None.
Proof. reflexivity. Qed.
Example JSON_parse_bad3 : JSON_parse "01" = None.
Proof. reflexivity. Qed.
Example JSON_parse_bad4 : JSON_parse "1 2" = None.
Proof. reflexivity. Qed.

Example JSON_stringify_ex :
  JSON_stringify {| x := zero; y := number_of_Z 500 |}
  = text ("{"%char :: dquote :: "x"%char :: dquote :: list_ascii_of_string ":0,"
          ++ dquote :: "y"%char :: dquote :: list_ascii_of_string ":500}").
Proof. reflexivity. Qed.

Section JsonRoundTrip.

Lemma is_num_char_digit d : is_num_char (digit_char d) = true.
Proof. by destruct d. Qed.

Lemma Forall_num_digits ds : Forall (fun c => is_num_char c = true) (chars_of_digits ds).
Proof. apply Forall_map, Forall_true. apply is_num_char_digit. Qed.

Lemma Forall_num_zeros m : Forall (fun c => is_num_char c = true) (replicate m "0"%char).
Proof. by apply Forall_replicate. Qed.

Lemma number_chars_num x : Forall (fun c => is_num_char c = true) (number_chars x).
Proof.
  destruct x as [neg ds n]. unfold number_chars. simpl.
  destruct ds as [| d tl]; [by repeat constructor |].
  apply Forall_app. split; [destruct neg; by repeat constructor |].
  repeat case_match;
    repeat first [ apply Forall_app; split | apply Forall_cons; split
                 | apply Forall_num_digits | apply Forall_num_zeros
                 | apply is_num_char_digit | done ].
Qed.

(** A printed number starts a number token. *)
Lemma number_chars_start x :
  exists c cs, number_chars x = c :: cs /\ idle_step c = Some ([], LNum [c]).
Proof.
  assert (forall e, idle_step (digit_char e) = Some ([], LNum [digit_char e]))
    as Hd by (by intros []).
  destruct x as [neg ds n]. unfold number_chars. simpl.
  destruct ds as [| d tl]; [eexists _, _; split; reflexivity |].
  destruct neg; [eexists _, _; split; reflexivity |].
  repeat case_match; simpl;
    try (eexists _, _; split; [reflexivity | first [apply Hd | reflexivity]]).
  destruct (Z.to_nat n) eqn:Hn.
  { match goal with H : _ && _ = true |- _ =>
      apply andb_true_iff in H as [?%Z.ltb_lt _] end. lia. }
  simpl. eexists _, _; split; [reflexivity | apply Hd].
Qed.

Lemma lex_num_run acc cs d r :
  Forall (fun c => is_num_char c = true) cs -> is_num_char d = false ->
  lex (LNum acc) (cs ++ d :: r)
  = (t ← close_num (acc ++ cs);
     '(ts, st') ← idle_step d;
     rest ← lex st' r;
     Some (t :: ts ++ rest)).
Proof.
  intros Hcs Hd. revert acc. induction Hcs as [| c cs Hc _ IH]; intros acc.
  - rewrite app_nil_r. simpl. rewrite Hd.
    destruct (close_num acc); [| done]. simpl.
    destruct (idle_step d) as [[ts st'] |]; [| done]. simpl.
    by destruct (lex st' r).
  - simpl. rewrite Hc. simpl. rewrite IH, <- app_assoc.
    change (acc ++ [c] ++ cs) with (acc ++ c :: cs).
    match goal with |- ?m ≫= _ = _ => by destruct m end.
Qed.

(** Lexing a printed number that a non-number character follows. *)
Lemma lex_number x d r :
  wf_number x = true -> is_num_char d = false ->
  lex LIdle (number_chars x ++ d :: r)
  = ('(ts, st') ← idle_step d;
     rest ← lex st' r;
     Some (TLit (JNum x) :: ts ++ rest)).
Proof.
  intros Hwf Hd.
  pose proof (parse_numeral_chars x Hwf) as Hparse.
  pose proof (number_chars_num x) as Hnum.
  destruct (number_chars_start x) as (c & cs & Hx & Hc).
  rewrite Hx in *. apply Forall_cons in Hnum as [_ Hnum].
  change (lex LIdle ((c :: cs) ++ d :: r))
    with ('(ts, st') ← idle_step c; rest ← lex st' (cs ++ d :: r); Some (ts ++ rest)).
  rewrite Hc. simpl. rewrite lex_num_run by done.
  change ([c] ++ cs) with (c :: cs).
  unfold close_num. rewrite Hparse. simpl.
  destruct (idle_step d) as [[ts st'] |]; [| done]. simpl.
  by destruct (lex st' r).
Qed.

Lemma lex_brace r :
  lex LIdle ("{"%char :: r) = (rest ← lex LIdle r; Some (TLBrace :: rest)).
Proof. simpl. by destruct (lex LIdle r). Qed.

Lemma lex_key_x r :
  lex LIdle (dquote :: "x"%char :: dquote :: ":"%char :: r)
  = (rest ← lex LIdle r; Some (TLit (JStr (jstring_of "x")) :: TColon :: rest)).
Proof. simpl. by destruct (lex LIdle r). Qed.

Lemma lex_key_y r :
  lex LIdle (dquote :: "y"%char :: dquote :: ":"%char :: r)
  = (rest ← lex LIdle r; Some (TLit (JStr (jstring_of "y")) :: TColon :: rest)).
Proof. simpl. by destruct (lex LIdle r). Qed.

(** [JSON.parse] reads the text of a position back as the object it was
    printed from. *)
Lemma JSON_parse_stringify p :
  wf_pos p = true -> JSON_parse (JSON_stringify p) = Some (pos_object p).
Proof.
  intros [Hx Hy]%andb_true_iff.
  unfold JSON_parse, JSON_stringify, text.
  rewrite list_ascii_of_string_of_list_ascii. unfold stringify_chars.
  rewrite lex_brace, lex_key_x, (lex_number (x p)) by done.
  change (idle_step ","%char) with (Some ([TComma], LIdle)). cbn [mbind option_bind].
  rewrite lex_key_y, (lex_number (y p)) by done.
  reflexivity.
Qed.

End JsonRoundTrip.

(** ** The numbers [scrollTo] makes of values *)

Example ToNumber_string :
  ToNumber (Some (JStr (jstring_of " 12.5 ")))
  = Some (Some (Number false [d1; d2; d5] 2)).
Proof. reflexivity. Qed.
Example ToNumber_hex :
  ToNumber (Some (JStr (jstring_of "0x1F"))) = Some (Some (number_of_Z 31)).
Proof. reflexivity. Qed.
Example ToNumber_array :
  ToNumber (Some (JArr [JArr [JNum (number_of_Z 7)]]))
  = Some (Some (number_of_Z 7)).
Proof. reflexivity. Qed.
Example ToNumber_array2 :
  ToNumber (Some (JArr [JNum (number_of_Z 7); JNull])) = Some None.
Proof. reflexivity. Qed.
Example ToNumber_object : ToNumber (Some (JObj [(jstring_of "a", JNull)])) = Some None.
Proof. reflexivity. Qed.
Example ToNumber_object_toString :
  ToNumber (Some (JObj [(jstring_of "toString", JNum (number_of_Z 1))])) = None.
Proof. reflexivity. Qed.
Example ToNumber_array_object_toString :
  ToNumber (Some (JArr [JNum (number_of_Z 1);
                        JObj [(jstring_of "toString", JNull)]])) = None.
Proof. reflexivity. Qed.
Example scroll_coord_undefined : scroll_coord None = Some zero.
Proof. reflexivity. Qed.

(** ** The store functions in closed form *)

Lemma saveScrollPos_eq key selector w :
  saveScrollPos key selector w
  = match save_source selector w with
    | Ok t =>
      let txt := JSON_stringify (offset t w) in
      (Ok tt, record (SetItem (storage_key key) txt)
                (with_storage <[storage_key key := txt]> w))
    | Throw e => (Throw e, w)
    end.
Proof.
  unfold saveScrollPos, save_source, querySelector, bind, gets.
  destruct (truthy selector) as [sel |]; [| done].
  by destruct (document w sel).
Qed.

Lemma scrollTo_props t v w :
  (let! vx := get_prop v "x" in
   let! vy := get_prop v "y" in
   scrollTo t vx vy) w
  = match coords v with
    | Throw e => (Throw e, w)
    | Ok p => (Ok tt, record (ScrollTo t p) (with_scroll t p w))
    end.
Proof.
  unfold coords, scrollTo, bind.
  destruct v as [| b | n | str | elems | members]; try done.
  simpl. unfold prop.
  destruct (scroll_coord _) as [px |]; [| done].
  by destruct (scroll_coord _) as [py |].
Qed.

Lemma bind_run {S A B} (m : M S A) (k : A -> M S B) s :
  bind m k s
  = match m s with
    | (Ok a, s') => k a s'
    | (Throw e, s') => (Throw e, s')
    end.
Proof. done. Qed.

Lemma stored_value_eq item w :
  stored_value item w
  = match stored_json item with
    | Ok v => (Ok v, w)
    | Throw e => (Throw e, w)
    end.
Proof.
  unfold stored_value, stored_json. destruct (truthy item) as [txt |]; [| done].
  by destruct (JSON_parse txt).
Qed.

Lemma querySelector_eq sel w :
  querySelector sel w
  = match document w sel with
    | QInvalid => (Throw DOMSyntaxError, w)
    | QNull => (Ok None, w)
    | QElement e => (Ok (Some e), w)
    end.
Proof. unfold querySelector, bind, gets. by destruct (document w sel). Qed.

Lemma restoreScrollPos_eq key selector w :
  restoreScrollPos key selector w
  = let w1 := record (GetItem (storage_key key)) w in
    match stored_json (storage w !! storage_key key) with
    | Throw e => (Throw e, w1)
    | Ok v =>
      match restore_target selector w with
      | Throw e => (Throw e, w1)
      | Ok None => (Ok tt, w1)
      | Ok (Some t) =>
        match coords v with
        | Throw e => (Throw e, w1)
        | Ok p => (Ok tt, record (ScrollTo t p) (with_scroll t p w1))
        end
      end
    end.
Proof.
  unfold restoreScrollPos, restore_target. rewrite bind_run.
  change (getItem (storage_key key) w)
    with (Ok (storage w !! storage_key key), record (GetItem (storage_key key)) w).
  cbn beta iota zeta. rewrite bind_run, stored_value_eq.
  destruct (stored_json _) as [v |]; [| done].
  destruct (truthy selector) as [sel |].
  - rewrite bind_run, querySelector_eq. cbn [document record].
    destruct (document w sel); try done. apply scrollTo_props.
  - apply scrollTo_props.
Qed.

Lemma deleteScrollPos_eq key w :
  deleteScrollPos key w
  = (Ok tt, record (RemoveItem (storage_key key))
              (with_storage (delete (storage_key key)) w)).
Proof. done. Qed.

Lemma storage_key_inj k k' : storage_key k = storage_key k' -> k = k'.
Proof. unfold storage_key. simpl. by intros [=]. Qed.

(** ** Save, then restore *)

Lemma truthy_stringify p : truthy (Some (JSON_stringify p)) = Some (JSON_stringify p).
Proof. done. Qed.

Lemma coords_pos_object p : coords (pos_object p) = Ok p.
Proof. by destruct p. Qed.

Lemma stored_json_stringify p :
  wf_pos p = true -> stored_json (Some (JSON_stringify p)) = Ok (pos_object p).
Proof.
  intros Hwf. unfold stored_json. rewrite truthy_stringify.
  by rewrite JSON_parse_stringify.
Qed.

Lemma offset_with_scroll t p w : offset t (with_scroll t p w) = p.
Proof. destruct t as [| e]; simpl; [done |]. by rewrite lookup_insert_eq. Qed.

Lemma scroll_container_source selector w t :
  scroll_container selector w = Some t -> save_source selector w = Ok t.
Proof.
  unfold scroll_container, save_source.
  destruct (truthy selector) as [sel |]; [| congruence].
  destruct (document w sel); congruence.
Qed.

Lemma scroll_container_target selector w t :
  scroll_container selector w = Some t -> restore_target selector w = Ok (Some t).
Proof.
  unfold scroll_container, restore_target.
  destruct (truthy selector) as [sel |]; [| congruence].
  destruct (document w sel); congruence.
Qed.

(** C8. Saving under a key while the scroll container of the selector is at
    [p], and restoring under that key later, while the selector stands for
    the same container, puts the container at exactly [p]: the two numbers
    survive the JSON text unchanged. *)
Theorem save_restore_round_trip (k : string) (s : option string) (t : target)
    (p : ScrollPos) (w w' : World) :
  scroll_container s w = Some t ->
  offset t w = p ->
  wf_pos p = true ->
  storage w' !! storage_key k
    = storage (saveScrollPos k s w).2 !! storage_key k ->
  scroll_container s w' = Some t ->
  (saveScrollPos k s w).1 = Ok tt
  /\ (restoreScrollPos k s w').1 = Ok tt
  /\ offset t (restoreScrollPos k s w').2 = p.
Proof.
  intros Hs Hp Hwf Hentry Hs'.
  rewrite saveScrollPos_eq in *. rewrite restoreScrollPos_eq.
  rewrite (scroll_container_source _ _ _ Hs) in *. simpl in *.
  rewrite lookup_insert_eq in Hentry.
  rewrite Hentry, Hp, (stored_json_stringify _ Hwf), coords_pos_object.
  rewrite (scroll_container_target _ _ _ Hs'). simpl.
  split; [done |]. split; [done |].
  destruct t as [| e]; simpl; [done |]. by rewrite lookup_insert_eq.
Qed.

Lemma save_restore_round_trip_witness :
  let p := {| x := Number false [d1; d2; d5] 2; y := number_of_Z 500 |} in
  let w := with_scroll (Element 0) p page in
  let w' := at_offset (Element 0) 0 0 (saveScrollPos "K1" (Some "#list") w).2 in
  (scroll_container (Some "#list") w = Some (Element 0)
   /\ offset (Element 0) w = p
   /\ wf_pos p = true
   /\ storage w' !! storage_key "K1"
      = storage (saveScrollPos "K1" (Some "#list") w).2 !! storage_key "K1"
   /\ scroll_container (Some "#list") w' = Some (Element 0))
  /\ ((saveScrollPos "K1" (Some "#list") w).1 = Ok tt
      /\ (restoreScrollPos "K1" (Some "#list") w').1 = Ok tt
      /\ offset (Element 0) (restoreScrollPos "K1" (Some "#list") w').2 = p).
Proof.
  intros p w w'. split; [repeat split; reflexivity |].
  apply (save_restore_round_trip "K1" (Some "#list") (Element 0) p w w');
    reflexivity.
Defined.

(** ** One entry per key *)

(** C9. A second save under a key replaces what the first one stored: the
    entry under the key is the text of the second position, the storage is
    what a single save of the second position would have left, and no entry
    was added to those present after the first save. *)
Theorem save_overwrites (k : string) (s1 s2 : option string) (t1 t2 : target)
    (p2 : ScrollPos) (w w' : World) :
  save_source s1 w = Ok t1 ->
  storage w' = storage (saveScrollPos k s1 w).2 ->
  save_source s2 w' = Ok t2 ->
  offset t2 w' = p2 ->
  let w2 := (saveScrollPos k s2 w').2 in
  (saveScrollPos k s1 w).1 = Ok tt
  /\ (saveScrollPos k s2 w').1 = Ok tt
  /\ storage w2 !! storage_key k = Some (JSON_stringify p2)
  /\ storage w2 = <[storage_key k := JSON_stringify p2]> (storage w)
  /\ dom (storage w2) = dom (storage w')
  /\ size (storage w2) = size (storage w').
Proof.
  intros H1 Hw' H2 Hp2. rewrite !saveScrollPos_eq in *.
  rewrite H1 in *. rewrite H2. simpl in *. rewrite Hp2, Hw'.
  split; [done |]. split; [done |].
  split; [by rewrite lookup_insert_eq |].
  split; [by rewrite insert_insert_eq |].
  assert (dom (<[storage_key k := JSON_stringify p2]>
                 (<[storage_key k := JSON_stringify (offset t1 w)]> (storage w)))
          = dom (<[storage_key k := JSON_stringify (offset t1 w)]> (storage w)))
    as Hdom by (by rewrite insert_insert_eq, !dom_insert_L).
  split; [done |].
  by rewrite <- !size_dom, Hdom.
Qed.

Lemma save_overwrites_witness :
  let w := at_offset Viewport 0 120 page in
  let w' := at_offset Viewport 0 500 (saveScrollPos "K1" None w).2 in
  let p2 := {| x := number_of_Z 0; y := number_of_Z 500 |} in
  let w2 := (saveScrollPos "K1" None w').2 in
  (save_source None w = Ok Viewport
   /\ storage w' = storage (saveScrollPos "K1" None w).2
   /\ save_source None w' = Ok Viewport
   /\ offset Viewport w' = p2)
  /\ ((saveScrollPos "K1" None w).1 = Ok tt
      /\ (saveScrollPos "K1" None w').1 = Ok tt
      /\ storage w2 !! storage_key "K1" = Some (JSON_stringify p2)
      /\ storage w2 = <[storage_key "K1" := JSON_stringify p2]> (storage w)
      /\ dom (storage w2) = dom (storage w')
      /\ size (storage w2) = size (storage w')).
Proof.
  intros w w' p2 w2. split; [repeat split; reflexivity |].
  apply (save_overwrites "K1" None None Viewport Viewport p2 w w'); reflexivity.
Defined.

(** ** The store touches one key *)

(** C10. Deleting and saving under a key leave the entry, or the absence of
    one, under the storage key of every other key as it was, and restoring
    leaves the whole storage as it was, whether it returns or throws. *)
Theorem store_frame (k k' : string) (s : option string) (w : World) :
  k <> k' ->
  storage (deleteScrollPos k w).2 !! storage_key k' = storage w !! storage_key k'
  /\ storage (saveScrollPos k s w).2 !! storage_key k' = storage w !! storage_key k'
  /\ storage (restoreScrollPos k s w).2 = storage w.
Proof.
  intros Hk.
  assert (storage_key k <> storage_key k') as Hsk
    by (intros ?%storage_key_inj; done).
  rewrite deleteScrollPos_eq, saveScrollPos_eq, restoreScrollPos_eq. simpl.
  split; [by rewrite lookup_delete_ne |]. split.
  - destruct (save_source s w); simpl; [by rewrite lookup_insert_ne | done].
  - destruct (stored_json _) as [v |]; [| done].
    destruct (restore_target s w) as [[t |] |]; try done.
    by destruct (coords v).
Qed.

Lemma store_frame_witness :
  let w := (saveScrollPos "K2" None (at_offset Viewport 0 40 page)).2 in
  "K1" <> "K2"
  /\ (storage (deleteScrollPos "K1" w).2 !! storage_key "K2"
       = storage w !! storage_key "K2"
      /\ storage (saveScrollPos "K1" (Some "#list") w).2 !! storage_key "K2"
         = storage w !! storage_key "K2"
      /\ storage (restoreScrollPos "K1" (Some "#list") w).2 = storage w).
Proof.
  intros w. split; [done |].
  apply (store_frame "K1" "K2" (Some "#list") w). done.
Defined.

(** ** Selectors that match nothing *)

(** C3, as the spec has it, fails: with a position stored under the key and
    a selector that matches nothing, [restoreScrollPos] returns without
    scrolling the viewport (or anything else). *)
Lemma restore_unresolved_counterexample :
  let w := with_entry "K1" (entry 0 500) (at_offset Viewport 0 40 page) in
  let r := restoreScrollPos "K1" (Some "#missing") w in
  document w "#missing" = QNull
  /\ r.1 = Ok tt
  /\ offset Viewport r.2 = {| x := number_of_Z 0; y := number_of_Z 40 |}
  /\ offset Viewport r.2 <> {| x := number_of_Z 0; y := number_of_Z 500 |}
  /\ trace r.2 = [GetItem (storage_key "K1")].
Proof. repeat split; try reflexivity. discriminate. Qed.

(** C3, amended. With a selector that is not empty and matches nothing,
    [saveScrollPos] stores the offset of the viewport, and
    [restoreScrollPos] reads the entry and scrolls nothing: the viewport and
    every element stay where they are. *)
Theorem unresolved_selector (key sel : string) (w : World) :
  sel <> EmptyString ->
  document w sel = QNull ->
  (saveScrollPos key (Some sel) w).1 = Ok tt
  /\ storage (saveScrollPos key (Some sel) w).2 !! storage_key key
     = Some (JSON_stringify (window_scroll w))
  /\ window_scroll (restoreScrollPos key (Some sel) w).2 = window_scroll w
  /\ element_scroll (restoreScrollPos key (Some sel) w).2 = element_scroll w
  /\ trace (restoreScrollPos key (Some sel) w).2
     = trace w ++ [GetItem (storage_key key)].
Proof.
  intros Hsel Hdoc. rewrite saveScrollPos_eq, restoreScrollPos_eq.
  unfold save_source, restore_target.
  assert (truthy (Some sel) = Some sel) as -> by (by destruct sel).
  rewrite Hdoc. simpl. rewrite lookup_insert_eq.
  split; [done |]. split; [done |].
  by destruct (stored_json _).
Qed.

Lemma unresolved_selector_witness :
  let w := with_entry "K1" (entry 0 500) (at_offset Viewport 0 40 page) in
  ("#missing" <> EmptyString /\ document w "#missing" = QNull)
  /\ ((saveScrollPos "K1" (Some "#missing") w).1 = Ok tt
      /\ storage (saveScrollPos "K1" (Some "#missing") w).2 !! storage_key "K1"
         = Some (JSON_stringify (window_scroll w))
      /\ window_scroll (restoreScrollPos "K1" (Some "#missing") w).2 = window_scroll w
      /\ element_scroll (restoreScrollPos "K1" (Some "#missing") w).2 = element_scroll w
      /\ trace (restoreScrollPos "K1" (Some "#missing") w).2
         = trace w ++ [GetItem (storage_key "K1")]).
Proof.
  intros w. split; [by split |].
  apply (unresolved_selector "K1" "#missing" w); done.
Defined.

(** C5. The second copy of [saveScrollPos] reads [scrollLeft] of [null] when
    the selector matches nothing, and throws; the first copy stores the
    offset of the viewport. *)
Theorem V2_save_unresolved_throws :
  let w := at_offset Viewport 0 40 page in
  document w "#missing" = QNull
  /\ V2.saveScrollPos "K1" (Some "#missing") w = (Throw TypeError, w)
  /\ (saveScrollPos "K1" (Some "#missing") w).1 = Ok tt.
Proof. repeat split; reflexivity. Qed.

(** ** Entries that are not JSON *)

(** C4, as the spec has it, fails: with the entry [oops] under the key,
    [restoreScrollPos] throws the [SyntaxError] of [JSON.parse] and leaves
    the viewport where it was, not at the origin. *)
Lemma restore_malformed_counterexample :
  let w := with_entry "K1" "oops" (at_offset Viewport 0 40 page) in
  let r := restoreScrollPos "K1" None w in
  r.1 = Throw SyntaxError
  /\ offset Viewport r.2 = {| x := number_of_Z 0; y := number_of_Z 40 |}
  /\ offset Viewport r.2 <> origin.
Proof. repeat split; try reflexivity. discriminate. Qed.

(** C4, amended. When the entry under the key is a text that is not empty
    and that [JSON.parse] rejects, [restoreScrollPos] throws that
    [SyntaxError] to its caller, having scrolled nothing and changed no
    entry; an entry that is absent or the empty text is read as [{0,0}], to
    which the container of the selector is scrolled. *)
Theorem restore_malformed (key txt : string) (selector : option string) (w : World) :
  storage w !! storage_key key = Some txt ->
  txt <> EmptyString ->
  JSON_parse txt = None ->
  restoreScrollPos key selector w
  = (Throw SyntaxError, record (GetItem (storage_key key)) w)
  /\ forall (w' : World) (t : target),
       truthy (storage w' !! storage_key key) = None ->
       scroll_container selector w' = Some t ->
       (restoreScrollPos key selector w').1 = Ok tt
       /\ offset t (restoreScrollPos key selector w').2 = origin.
Proof.
  intros Hentry Htxt Hparse. split.
  - rewrite restoreScrollPos_eq, Hentry. unfold stored_json.
    assert (truthy (Some txt) = Some txt) as -> by (by destruct txt).
    by rewrite Hparse.
  - intros w' t Habs Ht. rewrite restoreScrollPos_eq. unfold stored_json.
    rewrite Habs, (scroll_container_target _ _ _ Ht). simpl.
    split; [done |]. destruct t as [| e]; simpl; [done |].
    by rewrite lookup_insert_eq.
Qed.

Lemma restore_malformed_witness :
  let w := with_entry "K1" "{x:1}" (at_offset Viewport 0 40 page) in
  (storage w !! storage_key "K1" = Some "{x:1}"
   /\ "{x:1}" <> EmptyString
   /\ JSON_parse "{x:1}" = None)
  /\ (restoreScrollPos "K1" (Some "#list") w
      = (Throw SyntaxError, record (GetItem (storage_key "K1")) w)
      /\ forall (w' : World) (t : target),
           truthy (storage w' !! storage_key "K1") = None ->
           scroll_container (Some "#list") w' = Some t ->
           (restoreScrollPos "K1" (Some "#list") w').1 = Ok tt
           /\ offset t (restoreScrollPos "K1" (Some "#list") w').2 = origin).
Proof.
  intros w. split; [by repeat split |].
  apply (restore_malformed "K1" "{x:1}" (Some "#list") w); done.
Defined.

(** ** The handlers *)

Lemma in_world_hook {A} (m : M World A) s : hook (in_world m s).2 = hook s.
Proof. unfold in_world. by destruct (m (world s)). Qed.

Lemma keeps_render_bind {A B} (m : M System A) (k : A -> M System B) :
  keeps_render m -> (forall a, keeps_render (k a)) -> keeps_render (bind m k).
Proof.
  intros Hm Hk s. unfold bind. specialize (Hm s).
  destruct (m s) as [[a | e] s1]; simpl in *; [| done].
  destruct (Hk a s1) as (H1 & H2 & H3). destruct Hm as (G1 & G2 & G3).
  repeat split; congruence.
Qed.

Lemma keeps_render_in_world {A} (m : M World A) : keeps_render (in_world m).
Proof. intros s. by rewrite in_world_hook. Qed.

Lemma keeps_render_setKey k : keeps_render (setKey k).
Proof. by intros s. Qed.

Lemma handler_listeners sig env : keeps_render (handler sig env).
Proof.
  destruct sig; simpl.
  - apply keeps_render_in_world.
  - apply keeps_render_in_world.
  - unfold onRouteChangeComplete.
    apply keeps_render_bind; [apply keeps_render_in_world |]. intros k.
    apply keeps_render_bind; [apply keeps_render_setKey |]. intros _.
    destruct (env_delay env); apply keeps_render_in_world.
Qed.

Lemma settle_hook r :
  hook (settle r) = hook r.2.
Proof. by destruct r as [[[] | e] s]. Qed.

Lemma step_attached_ok s ev : attached_ok (hook s) -> attached_ok (hook (step s ev)).
Proof.
  intros Hok. destruct ev as [o | | sig | i | k | t p]; simpl; try done.
  - intros env. unfold render. simpl.
    destruct (decide _) as [[= He Hk Hs] | _].
    + intros Henv. destruct (Hok env Henv) as (H1 & H2 & H3).
      by rewrite He, Hk, Hs.
    + unfold subscribe. destruct (enabled o) eqn:Hen; [| done].
      by intros [= <-].
  - rewrite settle_hook. unfold dispatch.
    destruct (listeners (hook s)) as [env |] eqn:Hl; [| done].
    destruct (handler_listeners sig env s) as (H1 & H2 & H3).
    intros env'. unfold attached_ok in Hok. rewrite H1, H2, H3. apply Hok.
  - rewrite settle_hook. unfold fire_timer.
    destruct (timers (world s) !! i); [| done]. by rewrite in_world_hook.
Qed.

(** In every state the hook reaches, the attached handlers hold the key of
    the last render. *)
Lemma run_attached_ok evs o w : attached_ok (hook (run evs (mount o w))).
Proof.
  unfold run. rewrite <- (reverse_involutive evs).
  induction (reverse evs) as [| ev evs' IH].
  - simpl. intros env. unfold subscribe. destruct (enabled o) eqn:Hen; [| done].
    by intros [= <-].
  - rewrite reverse_cons, fold_left_app. simpl. by apply step_attached_ok.
Qed.

(** C6. When the page unloads while the handlers hold key [A] and the
    router reports [B], the handler returns with no entry left under the
    storage key of [A] or of [B], and the key of the hook, rendered or
    queued, is what it was. *)
Theorem unload_clears_both (s : System) (env : Env) (A B : string) :
  listeners (hook s) = Some env ->
  env_key env = A ->
  history_key (world s) = B ->
  let r := dispatch BeforeUnload s in
  r.1 = Ok tt
  /\ storage (world r.2) !! storage_key A = None
  /\ storage (world r.2) !! storage_key B = None
  /\ hook r.2 = hook s
  /\ hook (step s (EvSignal BeforeUnload)) = hook s.
Proof.
  intros Hl HA HB. simpl. unfold dispatch. rewrite Hl. simpl.
  unfold onBeforeUnload, in_world, bind, historyKey, gets. simpl.
  rewrite HA, HB. split; [done |].
  split.
  - destruct (decide (storage_key B = storage_key A)) as [-> | Hne].
    + by rewrite lookup_delete_eq.
    + by rewrite lookup_delete_ne, lookup_delete_eq.
  - split; [by rewrite lookup_delete_eq |]. done.
Qed.

Lemma unload_clears_both_witness :
  let w := with_entry "A" (entry 0 10) (with_entry "B" (entry 0 20)
             (with_history_key "A" page)) in
  let s := step (mounted (options None None) w) (EvNavigate "B") in
  let env := {| env_key := "A"; env_selector := None; env_delay := None |} in
  let r := dispatch BeforeUnload s in
  (listeners (hook s) = Some env /\ env_key env = "A" /\ history_key (world s) = "B")
  /\ (r.1 = Ok tt
      /\ storage (world r.2) !! storage_key "A" = None
      /\ storage (world r.2) !! storage_key "B" = None
      /\ hook r.2 = hook s
      /\ hook (step s (EvSignal BeforeUnload)) = hook s).
Proof.
  intros w s env r. split; [by repeat split |].
  apply (unload_clears_both s env "A" "B"); reflexivity.
Defined.

(** ** Restoring when a route change is complete *)

(** What [restoreScrollPos] does besides scrolling: it reads one entry. *)
Lemma restoreScrollPos_frame key selector w :
  let r := restoreScrollPos key selector w in
  storage r.2 = storage w
  /\ history_key r.2 = history_key w
  /\ timers r.2 = timers w
  /\ document r.2 = document w
  /\ exists mid, trace r.2 = trace w ++ GetItem (storage_key key) :: mid
                 /\ Forall is_scroll mid.
Proof.
  simpl. rewrite restoreScrollPos_eq. simpl.
  assert (forall w0 : World, w0 = record (GetItem (storage_key key)) w ->
            storage w0 = storage w /\ history_key w0 = history_key w
            /\ timers w0 = timers w /\ document w0 = document w
            /\ exists mid, trace w0 = trace w ++ GetItem (storage_key key) :: mid
                           /\ Forall is_scroll mid) as Hread.
  { intros w0 ->. repeat split; try done. by exists []. }
  destruct (stored_json _) as [v |]; [| by apply Hread].
  destruct (restore_target selector w) as [[t |] |]; try by apply Hread.
  destruct (coords v) as [p |]; [| by apply Hread].
  repeat split; try done. exists [ScrollTo t p]. split.
  - simpl. by rewrite <- app_assoc.
  - by repeat constructor.
Qed.

(** The body shared by the timer and by the branch without a delay, with the
    key the router reports when the body starts. *)
Lemma restore_then_delete_eq selector w :
  restore_then_delete selector w
  = (restoreScrollPos (history_key w) selector >> deleteScrollPos (history_key w)) w.
Proof.
  unfold restore_then_delete, bind, historyKey, gets.
  destruct (restoreScrollPos_frame (history_key w) selector w) as (_ & Hk & _).
  destruct (restoreScrollPos (history_key w) selector w) as [[[] | e] w1]; [| done].
  simpl in *. by rewrite Hk.
Qed.

Lemma onRouteChangeComplete_now env s :
  env_delay env = None ->
  onRouteChangeComplete env s
  = let K := history_key (world s) in
    match restoreScrollPos K (env_selector env) (world s) with
    | (Ok _, w1) =>
      (Ok tt, {| world := (deleteScrollPos K w1).2; hook := queue_key K (hook s) |})
    | (Throw e, w1) => (Throw e, {| world := w1; hook := queue_key K (hook s) |})
    end.
Proof.
  intros Hd. unfold onRouteChangeComplete. rewrite Hd.
  unfold bind, in_world, historyKey, gets, setKey, modify. simpl.
  rewrite restore_then_delete_eq. unfold bind.
  by destruct (restoreScrollPos _ _ _) as [[[] | e] w1].
Qed.

Lemma onRouteChangeComplete_later env d s :
  env_delay env = Some d ->
  onRouteChangeComplete env s
  = let t := {| timer_delay := d; timer_selector := env_selector env |} in
    (Ok tt, {| world := record (SetTimeout t)
                          (with_timers (fun ts => ts ++ [t]) (world s));
               hook := queue_key (history_key (world s)) (hook s) |}).
Proof. intros Hd. unfold onRouteChangeComplete. by rewrite Hd. Qed.





(** ** Delayed restoration *)

Lemma fire_timer_eq i t s :
  timers (world s) !! i = Some t ->
  fire_timer i s
  = let w0 := with_timers (delete i) (world s) in
    let K := history_key (world s) in
    match restoreScrollPos K (timer_selector t) w0 with
    | (Ok _, w1) => (Ok tt, {| world := (deleteScrollPos K w1).2; hook := hook s |})
    | (Throw e, w1) => (Throw e, {| world := w1; hook := hook s |})
    end.
Proof.
  intros Ht. unfold fire_timer. rewrite Ht.
  unfold in_world, bind at 1, modify, timer_callback. simpl.
  rewrite restore_then_delete_eq. unfold bind. simpl.
  by destruct (restoreScrollPos _ _ _) as [[[] | e] w1].
Qed.

(** C1, as the spec has it, fails.  The route change to [K1] completes with
    the position (0, 500) stored under [K1] and a delay of 200 ms; the route
    change to [K2] completes before the timer fires.  When the first timer
    fires, the viewport goes to the position stored under [K2], the entry of
    [K2] is removed and the entry of [K1] is still there. *)
Lemma delayed_restore_counterexample :
  let w := with_entry "K1" (entry 0 500) (with_entry "K2" (entry 0 30)
             (with_history_key "K0" page)) in
  let s := run [EvNavigate "K1"; EvSignal RouteChangeComplete; EvRender (options None (Some 200%N));
                EvNavigate "K2"; EvSignal RouteChangeComplete; EvRender (options None (Some 200%N));
                EvTimer 0]
             (mounted (options None (Some 200%N)) w) in
  offset Viewport (world s) = {| x := number_of_Z 0; y := number_of_Z 30 |}
  /\ offset Viewport (world s) <> {| x := number_of_Z 0; y := number_of_Z 500 |}
  /\ storage (world s) !! storage_key "K1" = Some (entry 0 500)
  /\ storage (world s) !! storage_key "K2" = None
  /\ trace (world s)
     = [SetTimeout {| timer_delay := 200; timer_selector := None |};
        SetTimeout {| timer_delay := 200; timer_selector := None |};
        GetItem (storage_key "K2");
        ScrollTo Viewport {| x := number_of_Z 0; y := number_of_Z 30 |};
        RemoveItem (storage_key "K2")].
Proof. repeat split; try reflexivity. discriminate. Qed.

(** C1, amended. The delayed callback works on the key the router reports
    when the timer fires, with the selector of the render that scheduled it:
    it runs [restoreScrollPos] and, if that returns, [deleteScrollPos] for
    that key.  The entry of every other key, the one that was current when
    the timer was scheduled included, stays as it is. *)
Theorem timer_uses_live_key (s : System) (i : nat) (t : Timer) :
  timers (world s) !! i = Some t ->
  let K := history_key (world s) in
  let restored :=
    restoreScrollPos K (timer_selector t) (with_timers (delete i) (world s)) in
  let r := fire_timer i s in
  r.1 = restored.1
  /\ (restored.1 = Ok tt ->
      world r.2 = (deleteScrollPos K restored.2).2
      /\ storage (world r.2) !! storage_key K = None)
  /\ (forall k, k <> K ->
      storage (world r.2) !! storage_key k = storage (world s) !! storage_key k).
Proof.
  intros Ht. simpl. rewrite (fire_timer_eq _ _ _ Ht). simpl.
  destruct (restoreScrollPos_frame (history_key (world s)) (timer_selector t)
              (with_timers (delete i) (world s))) as (Hst & _).
  destruct (restoreScrollPos _ _ _) as [[[] | e] w1]; simpl in *.
  - split; [done |]. split.
    + intros _. split; [done |]. by rewrite lookup_delete_eq.
    + intros k Hk. rewrite lookup_delete_ne, Hst; [done |].
      by intros ?%storage_key_inj.
  - split; [done |]. split; [done |]. intros k _. by rewrite Hst.
Qed.

Lemma timer_uses_live_key_witness :
  let w := with_entry "K1" (entry 0 500) (with_entry "K2" (entry 0 30)
             (with_history_key "K0" page)) in
  let s := run [EvNavigate "K1"; EvSignal RouteChangeComplete; EvNavigate "K2"]
             (mounted (options None (Some 200%N)) w) in
  let t := {| timer_delay := 200; timer_selector := None |} in
  let restored := restoreScrollPos "K2" None (with_timers (delete 0%nat) (world s)) in
  let r := fire_timer 0 s in
  timers (world s) !! 0%nat = Some t
  /\ (r.1 = restored.1
      /\ (restored.1 = Ok tt ->
          world r.2 = (deleteScrollPos "K2" restored.2).2
          /\ storage (world r.2) !! storage_key "K2" = None)
      /\ (forall k, k <> "K2" ->
          storage (world r.2) !! storage_key k = storage (world s) !! storage_key k)).
Proof.
  intros w s t restored r. split; [reflexivity |].
  apply (timer_uses_live_key s 0 t). reflexivity.
Defined.

(** ** Tearing the hook down *)

(** C2, as the spec has it, fails.  A route change completes with a delay of
    200 ms, then the consumer unmounts.  The timer still fires: the viewport
    is scrolled to the stored position and the entry is removed. *)
Lemma teardown_counterexample :
  let w := with_entry "K1" (entry 0 500) (with_history_key "K0" page) in
  let torn := run [EvNavigate "K1"; EvSignal RouteChangeComplete; EvUnmount]
                (mounted (options None (Some 200%N)) w) in
  let s := step torn (EvTimer 0) in
  listeners (hook torn) = None
  /\ storage (world torn) !! storage_key "K1" = Some (entry 0 500)
  /\ offset Viewport (world torn) = origin
  /\ storage (world s) !! storage_key "K1" = None
  /\ offset Viewport (world s) = {| x := number_of_Z 0; y := number_of_Z 500 |}
  /\ trace (world s)
     = trace (world torn)
       ++ [GetItem (storage_key "K1");
           ScrollTo Viewport {| x := number_of_Z 0; y := number_of_Z 500 |};
           RemoveItem (storage_key "K1")].
Proof. repeat split; reflexivity. Qed.

(** C2, amended. Tearing the hook down, by unmounting it or by disabling an
    enabled one, detaches the three handlers, so that no later signal does
    anything; it leaves the pending timers pending, and a timer that fires
    afterwards does to the page what it would have done without the
    teardown. *)
Theorem teardown_keeps_timers (s : System) (i : nat) :
  enabled (props (hook s)) = true ->
  forall torn, torn = unmount s \/ torn = disable s ->
    listeners (hook torn) = None
    /\ (forall sig, step torn (EvSignal sig) = torn)
    /\ timers (world torn) = timers (world s)
    /\ (fire_timer i torn).1 = (fire_timer i s).1
    /\ world (fire_timer i torn).2 = world (fire_timer i s).2.
Proof.
  intros Hen torn Htorn.
  assert (listeners (hook torn) = None /\ world torn = world s) as [Hl Hw].
  { destruct Htorn as [-> | ->]; [done |]. unfold disable, render. simpl.
    split; [| done]. destruct (decide _) as [[= He _] | _]; [| done].
    congruence. }
  split; [done |]. split.
  { intros sig. simpl. unfold dispatch. by rewrite Hl. }
  split; [by rewrite Hw |].
  unfold fire_timer. rewrite Hw.
  destruct (timers (world s) !! i) as [t |]; [| done].
  unfold in_world. rewrite Hw.
  by destruct ((modify (with_timers (delete i)) >> timer_callback t) (world s)).
Qed.

Lemma teardown_keeps_timers_witness :
  let w := with_entry "K1" (entry 0 500) (with_history_key "K0" page) in
  let s := run [EvNavigate "K1"; EvSignal RouteChangeComplete]
             (mounted (options None (Some 200%N)) w) in
  let torn := disable s in
  enabled (props (hook s)) = true
  /\ storage (world (fire_timer 0 torn).2) !! storage_key "K1" = None
  /\ (listeners (hook torn) = None
      /\ (forall sig, step torn (EvSignal sig) = torn)
      /\ timers (world torn) = timers (world s)
      /\ (fire_timer 0 torn).1 = (fire_timer 0 s).1
      /\ world (fire_timer 0 torn).2 = world (fire_timer 0 s).2).
Proof.
  intros w s torn. split; [reflexivity |]. split; [reflexivity |].
  apply (teardown_keeps_timers s 0); [reflexivity | by right].
Defined.

(** * Further properties of the store *)

(** X1. [deleteScrollPos] never throws, leaves no entry under the key, and
    is idempotent: a second delete changes nothing in the storage, and a
    delete of a key without an entry leaves the storage as it was. *)
Theorem delete_idempotent (key : string) (w : World) :
  let w1 := (deleteScrollPos key w).2 in
  let w2 := (deleteScrollPos key w1).2 in
  (deleteScrollPos key w).1 = Ok tt
  /\ (deleteScrollPos key w1).1 = Ok tt
  /\ storage w1 !! storage_key key = None
  /\ storage w2 = storage w1
  /\ (storage w !! storage_key key = None -> storage w1 = storage w)
  /\ offset Viewport w2 = offset Viewport w
  /\ element_scroll w2 = element_scroll w.
Proof.
  simpl. repeat split.
  - apply lookup_delete_eq.
  - apply delete_id, lookup_delete_eq.
  - intros Habs. by apply delete_id.
Qed.

(** X2. After [deleteScrollPos], [restoreScrollPos] for that key returns and
    puts the scroll container of the selector at the origin, whatever had
    been stored under the key before. *)
Theorem delete_then_restore (key : string) (selector : option string)
    (t : target) (w w' : World) :
  storage w' !! storage_key key
    = storage (deleteScrollPos key w).2 !! storage_key key ->
  scroll_container selector w' = Some t ->
  (restoreScrollPos key selector w').1 = Ok tt
  /\ offset t (restoreScrollPos key selector w').2 = origin
  /\ storage (restoreScrollPos key selector w').2 = storage w'.
Proof.
  intros Hentry Ht. rewrite deleteScrollPos_eq in Hentry. simpl in Hentry.
  rewrite lookup_delete_eq in Hentry.
  rewrite restoreScrollPos_eq, Hentry, (scroll_container_target _ _ _ Ht).
  simpl. split; [done |]. split; [| done].
  destruct t as [| e]; simpl; [done |]. by rewrite lookup_insert_eq.
Qed.

Lemma delete_then_restore_witness :
  let w := with_entry "K1" "oops" (at_offset (Element 0) 3 70 page) in
  let w' := (deleteScrollPos "K1" w).2 in
  (storage w' !! storage_key "K1"
     = storage (deleteScrollPos "K1" w).2 !! storage_key "K1"
   /\ scroll_container (Some "#list") w' = Some (Element 0))
  /\ ((restoreScrollPos "K1" (Some "#list") w').1 = Ok tt
      /\ offset (Element 0) (restoreScrollPos "K1" (Some "#list") w').2 = origin
      /\ storage (restoreScrollPos "K1" (Some "#list") w').2 = storage w').
Proof.
  intros w w'. split; [by split |].
  apply (delete_then_restore "K1" (Some "#list") (Element 0) w w'); reflexivity.
Defined.

(** X3. The two copies of the store do the same whenever the selector is
    absent, empty, or one for which [querySelector] does not answer [null]. *)
Theorem V2_agrees (key : string) (selector : option string) (w : World) :
  (forall sel, truthy selector = Some sel -> document w sel <> QNull) ->
  V2.saveScrollPos key selector w = saveScrollPos key selector w
  /\ V2.restoreScrollPos key selector w = restoreScrollPos key selector w
  /\ V2.deleteScrollPos key w = deleteScrollPos key w.
Proof.
  intros Hsel. split; [| split; [| done]].
  - unfold V2.saveScrollPos, saveScrollPos, querySelector, bind, gets.
    destruct (truthy selector) as [sel |]; [| done].
    specialize (Hsel sel eq_refl). by destruct (document w sel).
  - unfold V2.restoreScrollPos, restoreScrollPos, bind.
    destruct (getItem (storage_key key) w) as [[item | e] w1] eqn:Hget; [| done].
    assert (document w1 = document w) as Hdoc by (by injection Hget as _ <-).
    destruct (stored_value item w1) as [[v | e] w2] eqn:Hval; [| done].
    assert (document w2 = document w) as Hdoc2.
    { unfold stored_value in Hval. destruct (truthy item) as [txt |].
      - destruct (JSON_parse txt); by injection Hval as _ <-.
      - by injection Hval as _ <-. }
    destruct (truthy selector) as [sel |]; [| done].
    specialize (Hsel sel eq_refl). unfold querySelector, bind, gets.
    rewrite Hdoc2. by destruct (document w sel).
Qed.

Lemma V2_agrees_witness :
  let w := with_entry "K1" (entry 4 9) (at_offset (Element 0) 3 70 page) in
  (forall sel, truthy (Some "#list") = Some sel -> document w sel <> QNull)
  /\ (V2.saveScrollPos "K1" (Some "#list") w = saveScrollPos "K1" (Some "#list") w
      /\ V2.restoreScrollPos "K1" (Some "#list") w
         = restoreScrollPos "K1" (Some "#list") w
      /\ V2.deleteScrollPos "K1" w = deleteScrollPos "K1" w).
Proof.
  intros w.
  assert (forall sel, truthy (Some "#list") = Some sel -> document w sel <> QNull)
    as Hsel by (by intros sel [= <-]).
  split; [exact Hsel |].
  apply (V2_agrees "K1" (Some "#list") w Hsel).
Defined.

(** X4. With a selector that is not empty and matches nothing, the second
    copy of the store always throws: [saveScrollPos] stores nothing, and
    [restoreScrollPos] reads the entry and scrolls nothing, with the
    [SyntaxError] of a text that does not parse and a [TypeError]
    otherwise. *)
Theorem V2_unresolved_throws (key sel : string) (w : World) :
  sel <> EmptyString ->
  document w sel = QNull ->
  V2.saveScrollPos key (Some sel) w = (Throw TypeError, w)
  /\ V2.restoreScrollPos key (Some sel) w
     = (Throw (match stored_json (storage w !! storage_key key) with
               | Ok _ => TypeError
               | Throw e => e
               end),
        record (GetItem (storage_key key)) w).
Proof.
  intros Hsel Hdoc. destruct sel as [| c sel]; [done |]. split.
  - unfold V2.saveScrollPos, querySelector, bind, gets. simpl. by rewrite Hdoc.
  - unfold V2.restoreScrollPos, stored_value, stored_json, getItem,
      querySelector, bind, gets, modify. simpl.
    destruct (truthy (storage w !! storage_key key)) as [txt |].
    + destruct (JSON_parse txt) as [v |]; [| done]. simpl. by rewrite Hdoc.
    + simpl. by rewrite Hdoc.
Qed.

Lemma V2_unresolved_throws_witness :
  let w := with_entry "K1" (entry 4 9) (at_offset Viewport 0 40 page) in
  ("#missing" <> EmptyString /\ document w "#missing" = QNull)
  /\ (V2.saveScrollPos "K1" (Some "#missing") w = (Throw TypeError, w)
      /\ V2.restoreScrollPos "K1" (Some "#missing") w
         = (Throw (match stored_json (storage w !! storage_key "K1") with
                   | Ok _ => TypeError
                   | Throw e => e
                   end),
            record (GetItem (storage_key "K1")) w)).
Proof.
  intros w. split; [by split |].
  apply (V2_unresolved_throws "K1" "#missing" w); done.
Defined.

(** * Further properties of the hook *)

Lemma dispatch_attached sig env s :
  listeners (hook s) = Some env -> dispatch sig s = handler sig env s.
Proof. intros Hl. unfold dispatch. by rewrite Hl. Qed.

Lemma onRouteChangeStart_eq env s :
  onRouteChangeStart env s
  = match save_source (env_selector env) (world s) with
    | Ok t =>
      let txt := JSON_stringify (offset t (world s)) in
      (Ok tt, {| world := record (SetItem (storage_key (env_key env)) txt)
                            (with_storage <[storage_key (env_key env) := txt]>
                               (world s));
                 hook := hook s |})
    | Throw e => (Throw e, {| world := world s; hook := hook s |})
    end.
Proof.
  unfold onRouteChangeStart, in_world. rewrite saveScrollPos_eq.
  by destruct (save_source _ _).
Qed.

Lemma onBeforeUnload_eq env s :
  onBeforeUnload env s
  = (Ok tt,
     {| world := (deleteScrollPos (history_key (world s))
                    (deleteScrollPos (env_key env) (world s)).2).2;
        hook := hook s |}).
Proof. done. Qed.

Lemma handler_foreign sig env s k :
  foreign_key k ->
  storage (world (handler sig env s).2) !! k = storage (world s) !! k.
Proof.
  intros Hk. destruct sig; cbn [handler].
  - rewrite onBeforeUnload_eq. simpl. by rewrite !lookup_delete_ne.
  - rewrite onRouteChangeStart_eq.
    destruct (save_source _ _); simpl; [by rewrite lookup_insert_ne | done].
  - destruct (env_delay env) as [d |] eqn:Hd.
    + by rewrite (onRouteChangeComplete_later _ _ _ Hd).
    + rewrite (onRouteChangeComplete_now _ _ Hd). simpl.
      destruct (restoreScrollPos_frame (history_key (world s)) (env_selector env)
                  (world s)) as (Hst & _).
      destruct (restoreScrollPos _ _ _) as [[[] | e] w1]; simpl in *.
      * by rewrite lookup_delete_ne, Hst.
      * by rewrite Hst.
Qed.

Lemma fire_timer_foreign i s k :
  foreign_key k ->
  storage (world (fire_timer i s).2) !! k = storage (world s) !! k.
Proof.
  intros Hk. destruct (timers (world s) !! i) as [t |] eqn:Ht.
  - rewrite (fire_timer_eq _ _ _ Ht). simpl.
    destruct (restoreScrollPos_frame (history_key (world s)) (timer_selector t)
                (with_timers (delete i) (world s))) as (Hst & _).
    destruct (restoreScrollPos _ _ _) as [[[] | e] w1]; simpl in *.
    + by rewrite lookup_delete_ne, Hst.
    + by rewrite Hst.
  - unfold fire_timer. by rewrite Ht.
Qed.

Lemma settle_storage r : storage (world (settle r)) = storage (world r.2).
Proof. by destruct r as [[[] | e] s]. Qed.

Lemma step_foreign s ev k :
  foreign_key k -> storage (world (step s ev)) !! k = storage (world s) !! k.
Proof.
  intros Hk. destruct ev as [o | | sig | i | k' | t p]; simpl; try done.
  - rewrite settle_storage. unfold dispatch.
    destruct (listeners (hook s)) as [env |]; [| done].
    by apply handler_foreign.
  - rewrite settle_storage. by apply fire_timer_foreign.
Qed.

(** X5. Whatever happens to the hook (renders, signals, timers, routes,
    scrolling, unmounting), only entries under the storage key of some
    navigation key are ever written or removed: every other entry of the
    session storage stays as it is. *)
Theorem run_keeps_foreign_entries (evs : list Event) (s : System) (k : string) :
  foreign_key k ->
  storage (world (run evs s)) !! k = storage (world s) !! k.
Proof.
  intros Hk. revert s. induction evs as [| ev evs IH]; intros s; [done |].
  simpl. rewrite IH. by apply step_foreign.
Qed.

Lemma run_keeps_foreign_entries_witness :
  let w := with_storage <["theme" := "dark"]>
             (with_entry "K1" (entry 0 500) (with_history_key "K0" page)) in
  let evs := [EvSignal RouteChangeStart; EvNavigate "K1";
              EvSignal RouteChangeComplete; EvTimer 0; EvSignal BeforeUnload] in
  let s := mounted (options None (Some 50%N)) w in
  foreign_key "theme"
  /\ storage (world (run evs s)) !! "theme" = Some "dark"
  /\ storage (world (run evs s)) !! "theme" = storage (world s) !! "theme".
Proof.
  intros w evs s.
  assert (foreign_key "theme") as Hk by (by intros key).
  split; [exact Hk |]. split; [reflexivity |].
  apply (run_keeps_foreign_entries evs s "theme" Hk).
Defined.

Lemma step_dormant w0 s ev :
  stays_disabled ev -> dormant w0 s -> dormant w0 (step s ev).
Proof.
  intros Hev (Hl & Hen & Hst & Htr & Hti).
  destruct ev as [o | | sig | i | k | t p]; simpl in *.
  - unfold dormant, render. simpl. repeat split; try done.
    destruct (decide _); [done |]. unfold subscribe. by rewrite Hev.
  - done.
  - unfold dispatch. by rewrite Hl.
  - unfold fire_timer. by rewrite Hti.
  - done.
  - done.
Qed.

(** X6. A consumer mounted with [enabled = false] on a page without pending
    timers, and never rendered with [enabled = true], does nothing to the
    page: whatever signals, timer ticks, route changes and scrolling follow,
    no handler is attached, the storage is what it was, nothing is added to
    the trace (no storage access, no [scrollTo], no [setTimeout]) and no
    timer is pending. *)
Theorem disabled_does_nothing (o : Options) (w : World) (evs : list Event) :
  enabled o = false ->
  timers w = [] ->
  Forall stays_disabled evs ->
  let s := run evs (mount o w) in
  listeners (hook s) = None
  /\ storage (world s) = storage w
  /\ trace (world s) = trace w
  /\ timers (world s) = [].
Proof.
  intros Hen Hti Hevs.
  assert (dormant w (run evs (mount o w))) as (Hl & _ & Hst & Htr & Hti').
  { assert (dormant w (mount o w)) as Hinit.
    { unfold dormant, mount, subscribe. simpl. by rewrite Hen. }
    generalize dependent (mount o w). induction Hevs as [| ev evs Hev _ IH].
    - done.
    - intros s Hs. simpl. apply IH. by apply step_dormant. }
  done.
Qed.

Lemma disabled_does_nothing_witness :
  let o := {| enabled := false; selector := Some "#list"; delay := Some 50%N |} in
  let w := with_entry "K1" (entry 0 500) (with_history_key "K0" page) in
  let evs := [EvRender o; EvSignal RouteChangeStart; EvNavigate "K1";
              EvSignal RouteChangeComplete; EvTimer 0; EvScroll Viewport origin;
              EvSignal BeforeUnload; EvUnmount] in
  let s := run evs (mount o w) in
  (enabled o = false /\ timers w = [] /\ Forall stays_disabled evs)
  /\ (listeners (hook s) = None
      /\ storage (world s) = storage w
      /\ trace (world s) = trace w
      /\ timers (world s) = []).
Proof.
  intros o w evs s.
  assert (Forall stays_disabled evs) as Hevs by (by repeat constructor).
  split; [by repeat split |].
  apply (disabled_does_nothing o w evs eq_refl eq_refl Hevs).
Defined.

Lemma step_disabled_detached s ev :
  (enabled (props (hook s)) = false -> listeners (hook s) = None) ->
  enabled (props (hook (step s ev))) = false -> listeners (hook (step s ev)) = None.
Proof.
  intros Hok. destruct ev as [o | | sig | i | k | t p]; simpl; try done.
  - destruct (decide _) as [[= He _ _] | _].
    + intros Hen. apply Hok. congruence.
    + unfold subscribe. by intros ->.
  - rewrite settle_hook. unfold dispatch.
    destruct (listeners (hook s)) as [env |] eqn:Hl; [| done].
    destruct (handler_listeners sig env s) as (H1 & H2 & _).
    rewrite H1, H2, Hl. apply Hok.
  - rewrite settle_hook. unfold fire_timer.
    destruct (timers (world s) !! i); [| done]. by rewrite in_world_hook.
Qed.

(** X7. In every state the hook reaches from its mount, the handlers follow
    the render: handlers are attached only while [enabled] holds, and those
    attached close over the key and the selector of the last render; a hook
    whose options say [enabled = false] has none attached. *)
Theorem handlers_follow_render (evs : list Event) (o : Options) (w : World) :
  let h := hook (run evs (mount o w)) in
  (forall env, listeners h = Some env ->
     enabled (props h) = true
     /\ env_key env = key_state h
     /\ env_selector env = selector (props h))
  /\ (enabled (props h) = false -> listeners h = None).
Proof.
  simpl. split; [apply run_attached_ok |].
  unfold run. rewrite <- (reverse_involutive evs).
  induction (reverse evs) as [| ev evs' IH].
  - simpl. unfold subscribe. by intros ->.
  - rewrite reverse_cons, fold_left_app. simpl. by apply step_disabled_detached.
Qed.

(** X8. In every state the hook reaches, a navigation-start signal saves the
    offset of the scroll container under the key of the last render, with
    the selector of the last render, whatever key the router reports by
    then; it scrolls nothing, queues no key and starts no timer. *)
Theorem start_saves_rendered_key (evs : list Event) (o : Options) (w : World)
    (env : Env) (t : target) :
  let s := run evs (mount o w) in
  listeners (hook s) = Some env ->
  save_source (selector (props (hook s))) (world s) = Ok t ->
  let r := dispatch RouteChangeStart s in
  r.1 = Ok tt
  /\ storage (world r.2)
     = <[storage_key (key_state (hook s)) := JSON_stringify (offset t (world s))]>
         (storage (world s))
  /\ hook r.2 = hook s
  /\ window_scroll (world r.2) = window_scroll (world s)
  /\ element_scroll (world r.2) = element_scroll (world s)
  /\ timers (world r.2) = timers (world s).
Proof.
  simpl. intros Hl Hsrc.
  destruct (run_attached_ok evs o w env Hl) as (_ & Hkey & Hsel).
  rewrite (dispatch_attached _ _ _ Hl). simpl.
  rewrite onRouteChangeStart_eq, Hsel, Hsrc, Hkey. done.
Qed.

Lemma start_saves_rendered_key_witness :
  let o := options (Some "#list") None in
  let w := at_offset (Element 0) 0 310 (with_history_key "K0" page) in
  let evs := [EvRender o; EvNavigate "K1"] in
  let s := run evs (mount o w) in
  let env := {| env_key := "K0"; env_selector := Some "#list"; env_delay := None |} in
  let r := dispatch RouteChangeStart s in
  (listeners (hook s) = Some env
   /\ save_source (selector (props (hook s))) (world s) = Ok (Element 0))
  /\ history_key (world s) = "K1"
  /\ storage (world r.2) !! storage_key "K0" = Some (entry 0 310)
  /\ storage (world r.2) !! storage_key "K1" = None
  /\ (r.1 = Ok tt
      /\ storage (world r.2)
         = <[storage_key (key_state (hook s))
               := JSON_stringify (offset (Element 0) (world s))]>
             (storage (world s))
      /\ hook r.2 = hook s
      /\ window_scroll (world r.2) = window_scroll (world s)
      /\ element_scroll (world r.2) = element_scroll (world s)
      /\ timers (world r.2) = timers (world s)).
Proof.
  intros o w evs s env r. split; [by split |].
  split; [reflexivity |]. split; [reflexivity |]. split; [reflexivity |].
  apply (start_saves_rendered_key evs o w env (Element 0)); reflexivity.
Defined.

Lemma handler_world_only sig env s1 s2 :
  world s1 = world s2 ->
  (handler sig env s1).1 = (handler sig env s2).1
  /\ world (handler sig env s1).2 = world (handler sig env s2).2.
Proof.
  intros Hw. destruct sig; cbn [handler].
  - rewrite !onBeforeUnload_eq. simpl. by rewrite Hw.
  - rewrite !onRouteChangeStart_eq, Hw. by destruct (save_source _ _).
  - destruct (env_delay env) as [d |] eqn:Hd.
    + rewrite !(onRouteChangeComplete_later _ _ _ Hd). simpl. by rewrite Hw.
    + rewrite !(onRouteChangeComplete_now _ _ Hd). simpl. rewrite Hw.
      by destruct (restoreScrollPos _ _ _) as [[[] | e] w1].
Qed.

(** X9. The effect does not depend on [delay]: a render that changes only
    the delay leaves the handlers of the earlier render attached, so every
    signal does to the page what it would have done before that render, with
    the old delay. *)
Theorem delay_change_ignored (s : System) (o' : Options) (sig : Signal) :
  enabled o' = enabled (props (hook s)) ->
  selector o' = selector (props (hook s)) ->
  key_queued (hook s) = None ->
  let s' := render o' s in
  delay (props (hook s')) = delay o'
  /\ listeners (hook s') = listeners (hook s)
  /\ (dispatch sig s').1 = (dispatch sig s).1
  /\ world (dispatch sig s').2 = world (dispatch sig s).2.
Proof.
  intros Hen Hsel Hq. simpl.
  assert (listeners (hook (render o' s)) = listeners (hook s)) as Hl.
  { unfold render. simpl. rewrite Hq. simpl.
    destruct (decide _) as [_ | Hne]; [done |].
    exfalso. apply Hne. unfold deps. by rewrite Hen, Hsel. }
  split; [done |]. split; [done |].
  unfold dispatch. rewrite Hl.
  destruct (listeners (hook s)) as [env |]; [| done].
  by apply handler_world_only.
Qed.

Lemma delay_change_ignored_witness :
  let w := with_entry "K0" (entry 0 500) (with_history_key "K0" page) in
  let s := mounted (options None None) w in
  let o' := options None (Some 200%N) in
  let s' := render o' s in
  (enabled o' = enabled (props (hook s))
   /\ selector o' = selector (props (hook s))
   /\ key_queued (hook s) = None)
  /\ timers (world (dispatch RouteChangeComplete s').2) = []
  /\ offset Viewport (world (dispatch RouteChangeComplete s').2)
     = {| x := number_of_Z 0; y := number_of_Z 500 |}
  /\ (delay (props (hook s')) = delay o'
      /\ listeners (hook s') = listeners (hook s)
      /\ (dispatch RouteChangeComplete s').1 = (dispatch RouteChangeComplete s).1
      /\ world (dispatch RouteChangeComplete s').2
         = world (dispatch RouteChangeComplete s).2).
Proof.
  intros w s o' s'. split; [by repeat split |].
  split; [reflexivity |]. split; [reflexivity |].
  apply (delay_change_ignored s o' RouteChangeComplete); reflexivity.
Defined.

Lemma scroll_container_document selector w1 w2 :
  document w1 = document w2 ->
  scroll_container selector w1 = scroll_container selector w2.
Proof. intros Hdoc. unfold scroll_container. by rewrite Hdoc. Qed.

Lemma restore_stored key selector t p w :
  storage w !! storage_key key = Some (JSON_stringify p) ->
  wf_pos p = true ->
  scroll_container selector w = Some t ->
  restoreScrollPos key selector w
  = (Ok tt, record (ScrollTo t p)
              (with_scroll t p (record (GetItem (storage_key key)) w))).
Proof.
  intros Hentry Hwf Ht.
  rewrite restoreScrollPos_eq, Hentry, (stored_json_stringify _ Hwf).
  by rewrite (scroll_container_target _ _ _ Ht), coords_pos_object.
Qed.

Lemma restore_absent key selector t w :
  truthy (storage w !! storage_key key) = None ->
  scroll_container selector w = Some t ->
  restoreScrollPos key selector w
  = (Ok tt, record (ScrollTo t origin)
              (with_scroll t origin (record (GetItem (storage_key key)) w))).
Proof.
  intros Hentry Ht. rewrite restoreScrollPos_eq. unfold stored_json.
  by rewrite Hentry, (scroll_container_target _ _ _ Ht).
Qed.

Lemma restore_same_page key selector w1 w2 :
  same_page w1 w2 ->
  (restoreScrollPos key selector w1).1 = (restoreScrollPos key selector w2).1
  /\ same_page (restoreScrollPos key selector w1).2
       (restoreScrollPos key selector w2).2.
Proof.
  intros (Hst & Hws & Hes & Hdoc & Hhk).
  rewrite !restoreScrollPos_eq. unfold restore_target. rewrite Hst, Hdoc. simpl.
  assert (same_page (record (GetItem (storage_key key)) w1)
            (record (GetItem (storage_key key)) w2)) as Hread by done.
  destruct (stored_json _) as [v |]; [| done].
  destruct (truthy selector) as [sel |].
  - destruct (document w2 sel) as [| | e]; try done.
    destruct (coords v) as [p |]; [| done].
    split; [done |]. unfold same_page. simpl. by rewrite Hes.
  - destruct (coords v) as [p |]; [| done].
    split; [done |]. unfold same_page. simpl. done.
Qed.

Lemma delete_same_page key w1 w2 :
  same_page w1 w2 ->
  same_page (deleteScrollPos key w1).2 (deleteScrollPos key w2).2.
Proof.
  intros (Hst & Hws & Hes & Hdoc & Hhk). unfold same_page. simpl.
  by rewrite Hst.
Qed.

(** X10. When the handlers that are attached hold a delay (the delay of the
    render that attached them), the handler of a completed route change
    only starts a timer: it reads and writes no entry and scrolls nothing.
    If the timer fires before anything else happens, the page ends up with
    the storage and the offsets that a handler holding no delay would have
    left at once, and the timer is gone. *)
Theorem deferred_restore_agrees (s : System) (env : Env) (d : N) :
  listeners (hook s) = Some env ->
  env_delay env = Some d ->
  let now :=
    onRouteChangeComplete
      {| env_key := env_key env; env_selector := env_selector env;
         env_delay := None |} s in
  let scheduled := dispatch RouteChangeComplete s in
  let fired := fire_timer (length (timers (world s))) scheduled.2 in
  scheduled.1 = Ok tt
  /\ same_page (world scheduled.2) (world s)
  /\ timers (world scheduled.2)
     = timers (world s)
       ++ [{| timer_delay := d; timer_selector := env_selector env |}]
  /\ fired.1 = now.1
  /\ same_page (world fired.2) (world now.2)
  /\ hook fired.2 = hook now.2
  /\ timers (world fired.2) = timers (world s).
Proof.
  intros Hl Hd. simpl. rewrite (dispatch_attached _ _ _ Hl). simpl.
  rewrite (onRouteChangeComplete_later _ _ _ Hd). simpl.
  split; [done |]. split; [done |]. split; [done |].
  set (tm := {| timer_delay := d; timer_selector := env_selector env |}).
  rewrite (fire_timer_eq _ tm) by (simpl; apply list_lookup_middle; done).
  rewrite onRouteChangeComplete_now by done. simpl.
  set (w0 := with_timers (delete (length (timers (world s)))) _).
  assert (same_page w0 (world s)) as Hsp by done.
  assert (timers w0 = timers (world s)) as Hti.
  { subst w0. simpl. rewrite (delete_middle _ []). apply app_nil_r. }
  destruct (restore_same_page (history_key (world s)) (env_selector env) _ _ Hsp)
    as (Hres & Hsp').
  destruct (restoreScrollPos_frame (history_key (world s)) (env_selector env) w0)
    as (_ & _ & Hti' & _).
  destruct (restoreScrollPos (history_key (world s)) (env_selector env) w0)
    as [[[] | e] w1];
    destruct (restoreScrollPos (history_key (world s)) (env_selector env) (world s))
      as [[[] | e'] w2]; simpl in *; try done.
  - split; [done |]. split; [apply (delete_same_page _ _ _ Hsp') |].
    split; [done | congruence].
  - split; [done |]. split; [done |]. split; [done | congruence].
Qed.

Lemma deferred_restore_agrees_witness :
  let w := with_entry "K1" (entry 0 500) (with_history_key "K1" page) in
  let s := mounted (options None (Some 200%N)) w in
  let env := {| env_key := "K1"; env_selector := None; env_delay := Some 200%N |} in
  let now :=
    onRouteChangeComplete
      {| env_key := env_key env; env_selector := env_selector env;
         env_delay := None |} s in
  let scheduled := dispatch RouteChangeComplete s in
  let fired := fire_timer (length (timers (world s))) scheduled.2 in
  (listeners (hook s) = Some env /\ env_delay env = Some 200%N)
  /\ offset Viewport (world fired.2)
     = {| x := number_of_Z 0; y := number_of_Z 500 |}
  /\ (scheduled.1 = Ok tt
      /\ same_page (world scheduled.2) (world s)
      /\ timers (world scheduled.2)
         = timers (world s)
           ++ [{| timer_delay := 200; timer_selector := env_selector env |}]
      /\ fired.1 = now.1
      /\ same_page (world fired.2) (world now.2)
      /\ hook fired.2 = hook now.2
      /\ timers (world fired.2) = timers (world s)).
Proof.
  intros w s env now scheduled fired. split; [by split |].
  split; [reflexivity |].
  apply (deferred_restore_agrees s env 200%N); reflexivity.
Defined.

(** X11. A restored position is used once.  When the handler of a completed
    route change (without a delay) has returned, a second completed route
    change for the same history entry, with no save in between, finds no
    entry and puts the scroll container at the origin. *)
Theorem restore_is_single_use (s : System) (env : Env) (t : target) :
  listeners (hook s) = Some env ->
  env_delay env = None ->
  scroll_container (env_selector env) (world s) = Some t ->
  let first := dispatch RouteChangeComplete s in
  first.1 = Ok tt ->
  let second := dispatch RouteChangeComplete first.2 in
  second.1 = Ok tt
  /\ offset t (world second.2) = origin
  /\ storage (world second.2) !! storage_key (history_key (world s)) = None.
Proof.
  intros Hl Hd Ht. simpl. rewrite (dispatch_attached _ _ _ Hl). simpl.
  rewrite (onRouteChangeComplete_now _ _ Hd). simpl.
  destruct (restoreScrollPos_frame (history_key (world s)) (env_selector env)
              (world s)) as (_ & Hk & _ & Hdoc & _).
  destruct (restoreScrollPos _ _ _) as [[[] | e] w1]; simpl in *; [| done].
  intros _. unfold dispatch. simpl. rewrite Hl. simpl.
  rewrite (onRouteChangeComplete_now _ _ Hd). simpl. rewrite Hk.
  rewrite (restore_absent _ _ t).
  - simpl. split; [done |]. split; [| by rewrite lookup_delete_eq].
    destruct t as [| el]; simpl; [done |]. by rewrite lookup_insert_eq.
  - simpl. by rewrite lookup_delete_eq.
  - rewrite <- Ht. by apply scroll_container_document.
Qed.

Lemma restore_is_single_use_witness :
  let w := with_entry "K1" (entry 0 500) (with_history_key "K1" page) in
  let s := mounted (options None None) w in
  let env := {| env_key := "K1"; env_selector := None; env_delay := None |} in
  let first := dispatch RouteChangeComplete s in
  let second := dispatch RouteChangeComplete first.2 in
  (listeners (hook s) = Some env
   /\ env_delay env = None
   /\ scroll_container (env_selector env) (world s) = Some Viewport
   /\ first.1 = Ok tt)
  /\ offset Viewport (world first.2) = {| x := number_of_Z 0; y := number_of_Z 500 |}
  /\ (second.1 = Ok tt
      /\ offset Viewport (world second.2) = origin
      /\ storage (world second.2) !! storage_key (history_key (world s)) = None).
Proof.
  intros w s env first second. split; [by repeat split |].
  split; [reflexivity |].
  apply (restore_is_single_use s env Viewport); reflexivity.
Defined.

Lemma step_complete_later s env d :
  listeners (hook s) = Some env ->
  env_delay env = Some d ->
  step s (EvSignal RouteChangeComplete)
  = let tm := {| timer_delay := d; timer_selector := env_selector env |} in
    {| world := record (SetTimeout tm)
                  (with_timers (fun ts => ts ++ [tm]) (world s));
       hook := queue_key (history_key (world s)) (hook s) |}.
Proof.
  intros Hl Hd. cbn [step]. rewrite (dispatch_attached _ _ _ Hl). cbn [handler].
  by rewrite (onRouteChangeComplete_later _ _ _ Hd).
Qed.

Lemma step_complete_now s env w1 :
  listeners (hook s) = Some env ->
  env_delay env = None ->
  restoreScrollPos (history_key (world s)) (env_selector env) (world s)
  = (Ok tt, w1) ->
  step s (EvSignal RouteChangeComplete)
  = {| world := (deleteScrollPos (history_key (world s)) w1).2;
       hook := queue_key (history_key (world s)) (hook s) |}.
Proof.
  intros Hl Hd Hres. cbn [step]. rewrite (dispatch_attached _ _ _ Hl).
  cbn [handler]. rewrite (onRouteChangeComplete_now _ _ Hd). cbn zeta.
  by rewrite Hres.
Qed.

Lemma step_timer_ok s i tm w1 :
  timers (world s) !! i = Some tm ->
  restoreScrollPos (history_key (world s)) (timer_selector tm)
    (with_timers (delete i) (world s)) = (Ok tt, w1) ->
  step s (EvTimer i)
  = {| world := (deleteScrollPos (history_key (world s)) w1).2; hook := hook s |}.
Proof.
  intros Hi Hres. cbn [step]. rewrite (fire_timer_eq _ _ _ Hi). cbn zeta.
  by rewrite Hres.
Qed.

Lemma step_start_ok s env t :
  listeners (hook s) = Some env ->
  save_source (env_selector env) (world s) = Ok t ->
  step s (EvSignal RouteChangeStart)
  = let txt := JSON_stringify (offset t (world s)) in
    {| world := record (SetItem (storage_key (env_key env)) txt)
                  (with_storage <[storage_key (env_key env) := txt]> (world s));
       hook := hook s |}.
Proof.
  intros Hl Hsrc. cbn [step]. rewrite (dispatch_attached _ _ _ Hl).
  cbn [handler]. by rewrite onRouteChangeStart_eq, Hsrc.
Qed.

Lemma step_navigate s k :
  step s (EvNavigate k)
  = {| world := with_history_key k (world s); hook := hook s |}.
Proof. done. Qed.

Lemma step_scroll s t p :
  step s (EvScroll t p) = {| world := with_scroll t p (world s); hook := hook s |}.
Proof. done. Qed.

(** Names the state of the innermost step that is still to be run. *)
Local Ltac name_inner_step sx :=
  match goal with
  | |- context [step ?st _] =>
    lazymatch st with
    | context [step] => fail
    | _ => set (sx := st)
    end
  end.

(** X12. With a delay, two route changes that complete before the first
    timer fires lose the position saved for the second one: the first timer
    scrolls the container to that position and removes the entry, the second
    timer then finds no entry and scrolls the container to the origin. *)
Theorem rapid_navigation_ends_at_origin (s : System) (env : Env) (d : N)
    (t : target) (K2 : string) (p2 : ScrollPos) :
  listeners (hook s) = Some env ->
  env_delay env = Some d ->
  timers (world s) = [] ->
  scroll_container (env_selector env) (world s) = Some t ->
  storage (world s) !! storage_key K2 = Some (JSON_stringify p2) ->
  wf_pos p2 = true ->
  let tm := {| timer_delay := d; timer_selector := env_selector env |} in
  let final :=
    run [EvSignal RouteChangeComplete; EvNavigate K2;
         EvSignal RouteChangeComplete; EvTimer 0; EvTimer 0] s in
  offset t (world final) = origin
  /\ storage (world final) !! storage_key K2 = None
  /\ timers (world final) = []
  /\ trace (world final)
     = trace (world s)
       ++ [SetTimeout tm; SetTimeout tm;
           GetItem (storage_key K2); ScrollTo t p2; RemoveItem (storage_key K2);
           GetItem (storage_key K2); ScrollTo t origin;
           RemoveItem (storage_key K2)].
Proof.
  intros Hl Hd Hti Ht Hentry Hwf tm final. subst final.
  unfold run. cbn [fold_left].
  rewrite (step_complete_later s env d Hl Hd). cbn zeta. fold tm.
  rewrite step_navigate. cbn [world hook].
  rewrite (step_complete_later _ env d) by done. cbn zeta. fold tm.
  cbn [world hook].
  name_inner_step s3. erewrite (step_timer_ok s3 0 tm); cycle 1.
  { subst s3. simpl. by rewrite Hti. }
  { apply (restore_stored _ _ t p2); done. }
  subst s3. cbn [world hook].
  name_inner_step s4. erewrite (step_timer_ok s4 0 tm); cycle 1.
  { subst s4. simpl. by rewrite Hti. }
  { apply (restore_absent _ _ t); [| done]. simpl. by rewrite lookup_delete_eq. }
  subst s4. simpl. rewrite Hti. split.
  { destruct t as [| el]; simpl; [done |]. by rewrite lookup_insert_eq. }
  split; [by rewrite lookup_delete_eq |]. split; [done |].
  by rewrite <- !app_assoc.
Qed.

Lemma rapid_navigation_ends_at_origin_witness :
  let w := with_entry "K2" (entry 0 30) (with_history_key "K1" page) in
  let s := mounted (options None (Some 200%N)) w in
  let env := {| env_key := "K1"; env_selector := None; env_delay := Some 200%N |} in
  let p2 := {| x := number_of_Z 0; y := number_of_Z 30 |} in
  let tm := {| timer_delay := 200%N; timer_selector := env_selector env |} in
  let final :=
    run [EvSignal RouteChangeComplete; EvNavigate "K2";
         EvSignal RouteChangeComplete; EvTimer 0; EvTimer 0] s in
  (listeners (hook s) = Some env
   /\ env_delay env = Some 200%N
   /\ timers (world s) = []
   /\ scroll_container (env_selector env) (world s) = Some Viewport
   /\ storage (world s) !! storage_key "K2" = Some (JSON_stringify p2)
   /\ wf_pos p2 = true)
  /\ (offset Viewport (world final) = origin
      /\ storage (world final) !! storage_key "K2" = None
      /\ timers (world final) = []
      /\ trace (world final)
         = trace (world s)
           ++ [SetTimeout tm; SetTimeout tm;
               GetItem (storage_key "K2"); ScrollTo Viewport p2;
               RemoveItem (storage_key "K2");
               GetItem (storage_key "K2"); ScrollTo Viewport origin;
               RemoveItem (storage_key "K2")]).
Proof.
  intros w s env p2 tm final. split; [by repeat split |].
  apply (rapid_navigation_ends_at_origin s env 200%N Viewport "K2" p2);
    reflexivity.
Defined.

Lemma mounted_eq o w :
  enabled o = true ->
  mounted o w
  = {| world := w;
       hook := {| props := o; key_state := history_key w; key_queued := None;
                  listeners := Some {| env_key := history_key w;
                                       env_selector := selector o;
                                       env_delay := delay o |} |} |}.
Proof.
  intros Hen. unfold mounted, render, mount, subscribe. simpl. rewrite Hen.
  destruct (decide _) as [[= Hk] | _]; [| done]. by rewrite Hk.
Qed.

Lemma save_source_container selector w t :
  scroll_container selector w = Some t -> save_source selector w = Ok t.
Proof. apply scroll_container_source. Qed.

Lemma step_complete_now_frame s env :
  listeners (hook s) = Some env ->
  env_delay env = None ->
  let s' := step s (EvSignal RouteChangeComplete) in
  hook s' = queue_key (history_key (world s)) (hook s)
  /\ document (world s') = document (world s)
  /\ history_key (world s') = history_key (world s)
  /\ forall k, k <> storage_key (history_key (world s)) ->
       storage (world s') !! k = storage (world s) !! k.
Proof.
  intros Hl Hd. cbn [step]. rewrite (dispatch_attached _ _ _ Hl). cbn [handler].
  rewrite (onRouteChangeComplete_now _ _ Hd). cbn zeta.
  destruct (restoreScrollPos_frame (history_key (world s)) (env_selector env)
              (world s)) as (Hst & Hk & _ & Hdoc & _).
  destruct (restoreScrollPos _ _ _) as [[[] | e] w1]; simpl in *.
  - repeat split; try done. intros k Hne. by rewrite lookup_delete_ne, Hst.
  - repeat split; try done. intros k _. by rewrite Hst.
Qed.

(** X13. Going away and coming back restores the position.  The consumer is
    mounted, enabled and without a delay, on history entry [K0] with its
    scroll container at [p].  A route change to another entry [K1] starts
    and completes, the consumer renders, the user scrolls to [p1], and a
    route change back to [K0] starts and completes.  Then the container is
    at [p] again, the entry of [K0] is used up, and [p1] is stored for [K1];
    this holds whatever was stored for [K1] at the start, malformed text
    included. *)
Theorem back_navigation_restores (o : Options) (w : World) (t : target)
    (p p1 : ScrollPos) (K1 : string) :
  enabled o = true ->
  delay o = None ->
  scroll_container (selector o) w = Some t ->
  offset t w = p ->
  wf_pos p = true ->
  K1 <> history_key w ->
  let K0 := history_key w in
  let final :=
    run [EvSignal RouteChangeStart; EvNavigate K1; EvSignal RouteChangeComplete;
         EvRender o; EvScroll t p1;
         EvSignal RouteChangeStart; EvNavigate K0; EvSignal RouteChangeComplete]
      (mounted o w) in
  offset t (world final) = p
  /\ storage (world final) !! storage_key K0 = None
  /\ storage (world final) !! storage_key K1 = Some (JSON_stringify p1)
  /\ key_queued (hook final) = Some K0.
Proof.
  intros Hen Hd Ht Hp Hwf HK K0 final. subst final.
  assert (storage_key K1 <> storage_key K0) as HsK
    by (by intros ?%storage_key_inj).
  unfold run. cbn [fold_left]. rewrite (mounted_eq _ _ Hen).
  (* the route change away from K0 starts *)
  name_inner_step s0.
  erewrite (step_start_ok s0 _ t); [| by subst s0 | by apply save_source_container].
  subst s0. cbn zeta. cbn [world hook env_key]. rewrite Hp.
  rewrite (step_navigate _ K1). cbn [world hook].
  (* and completes on K1 *)
  name_inner_step s2.
  destruct (step_complete_now_frame s2 _ eq_refl Hd) as (Hh3 & Hdoc3 & Hk3 & Hst3).
  set (s3 := step s2 (EvSignal RouteChangeComplete)) in *.
  assert (storage (world s3) !! storage_key K0 = Some (JSON_stringify p)) as He3.
  { rewrite Hst3 by (subst s2; simpl; done). subst s2. simpl.
    by rewrite lookup_insert_eq. }
  subst s2. simpl in Hh3, Hdoc3, Hk3. clear Hst3.
  (* the consumer renders with the key K1 *)
  assert (step s3 (EvRender o)
          = {| world := world s3;
               hook := {| props := o; key_state := K1; key_queued := None;
                          listeners := Some {| env_key := K1;
                                               env_selector := selector o;
                                               env_delay := None |} |} |})
    as ->.
  { cbn [step]. unfold render. rewrite Hh3. simpl.
    destruct (decide _) as [[= ?] | _]; [done |].
    unfold subscribe. by rewrite Hen, Hd. }
  rewrite step_scroll. cbn [world hook].
  (* the route change back to K0 starts *)
  name_inner_step s5.
  assert (scroll_container (selector o) (world s5) = Some t) as Ht5.
  { rewrite <- Ht. apply scroll_container_document. by subst s5. }
  erewrite (step_start_ok s5 _ t); [| by subst s5 | by apply save_source_container].
  cbn zeta. cbn [env_key].
  assert (offset t (world s5) = p1) as -> by (subst s5; apply offset_with_scroll).
  rewrite (step_navigate _ K0). cbn [world hook].
  (* and completes on K0 *)
  name_inner_step s7.
  erewrite (step_complete_now s7); [| by subst s7 | done |]; cycle 1.
  { apply (restore_stored _ _ t p); [| done |].
    - subst s7 s5. simpl. by rewrite lookup_insert_ne.
    - rewrite <- Ht5. apply scroll_container_document. by subst s7. }
  subst s7 s5. simpl. split.
  { destruct t as [| el]; simpl; [done |]. by rewrite lookup_insert_eq. }
  split; [by rewrite lookup_delete_eq |].
  split; [| done].
  by rewrite lookup_delete_ne, lookup_insert_eq.
Qed.

Lemma back_navigation_restores_witness :
  let o := options (Some "#list") None in
  let w := with_entry "K1" "oops"
             (at_offset (Element 0) 0 310 (with_history_key "K0" page)) in
  let p := {| x := number_of_Z 0; y := number_of_Z 310 |} in
  let p1 := {| x := number_of_Z 0; y := number_of_Z 45 |} in
  let final :=
    run [EvSignal RouteChangeStart; EvNavigate "K1"; EvSignal RouteChangeComplete;
         EvRender o; EvScroll (Element 0) p1;
         EvSignal RouteChangeStart; EvNavigate (history_key w);
         EvSignal RouteChangeComplete]
      (mounted o w) in
  (enabled o = true
   /\ delay o = None
   /\ scroll_container (selector o) w = Some (Element 0)
   /\ offset (Element 0) w = p
   /\ wf_pos p = true
   /\ "K1" <> history_key w)
  /\ (offset (Element 0) (world final) = p
      /\ storage (world final) !! storage_key (history_key w) = None
      /\ storage (world final) !! storage_key "K1" = Some (JSON_stringify p1)
      /\ key_queued (hook final) = Some (history_key w)).
Proof.
  intros o w p p1 final. split; [by repeat split |].
  apply (back_navigation_restores o w (Element 0) p p1 "K1"); done.
Defined.

(** X14. The first render has the empty string as its key, and its handlers
    are attached before the key of the page is known: a navigation-start
    signal that arrives before the next render saves the position under the
    storage key of the empty string (the bare prefix), not under the key of
    the page.  From the next render on, the handlers hold the key of the
    page. *)
Theorem first_render_saves_under_empty_key (o : Options) (w : World) (t : target) :
  enabled o = true ->
  save_source (selector o) w = Ok t ->
  history_key w <> EmptyString ->
  let s := step (mount o w) (EvSignal RouteChangeStart) in
  storage (world s) !! "scrollPos:" = Some (JSON_stringify (offset t w))
  /\ storage (world s) !! storage_key (history_key w)
     = storage w !! storage_key (history_key w)
  /\ listeners (hook (render o s))
     = Some {| env_key := history_key w; env_selector := selector o;
               env_delay := delay o |}.
Proof.
  intros Hen Hsrc Hk.
  assert (listeners (hook (mount o w))
          = Some {| env_key := EmptyString; env_selector := selector o;
                    env_delay := delay o |}) as Hl
    by (unfold mount, subscribe; simpl; by rewrite Hen).
  cbn zeta. erewrite (step_start_ok (mount o w)); [| exact Hl | exact Hsrc].
  simpl. split; [by rewrite lookup_insert_eq |]. split.
  - rewrite lookup_insert_ne; [done |].
    change "scrollPos:" with (storage_key EmptyString).
    by intros ?%storage_key_inj.
  - unfold render. simpl. destruct (decide _) as [[= ?] | _]; [done |].
    unfold subscribe. by rewrite Hen.
Qed.

Lemma first_render_saves_under_empty_key_witness :
  let o := options None None in
  let w := at_offset Viewport 0 310 (with_history_key "K0" page) in
  let s := step (mount o w) (EvSignal RouteChangeStart) in
  (enabled o = true
   /\ save_source (selector o) w = Ok Viewport
   /\ history_key w <> EmptyString)
  /\ (storage (world s) !! "scrollPos:" = Some (JSON_stringify (offset Viewport w))
      /\ storage (world s) !! storage_key (history_key w)
         = storage w !! storage_key (history_key w)
      /\ listeners (hook (render o s))
         = Some {| env_key := history_key w; env_selector := selector o;
                   env_delay := delay o |}).
Proof.
  intros o w s. split; [by repeat split |].
  apply (first_render_saves_under_empty_key o w Viewport); done.
Defined.

Lemma step_holds_delay d s ev :
  keeps_delay d ev ->
  (forall env, listeners (hook s) = Some env -> env_delay env = d) ->
  forall env, listeners (hook (step s ev)) = Some env -> env_delay env = d.
Proof.
  intros Hev Hok. destruct ev as [o | | sig | i | k | t p]; simpl in *; try done.
  - destruct (decide _) as [_ | _]; [apply Hok |].
    unfold subscribe. destruct (enabled o); [| done]. by intros env [= <-].
  - rewrite settle_hook. unfold dispatch.
    destruct (listeners (hook s)) as [env0 |] eqn:Hl;
      [| simpl; intros env; by rewrite Hl].
    destruct (handler_listeners sig env0 s) as (H1 & _). rewrite H1, Hl.
    apply Hok.
  - rewrite settle_hook. unfold fire_timer.
    destruct (timers (world s) !! i); [| done]. by rewrite in_world_hook.
Qed.

(** X15. While the delay option stays what it was at the mount, the handlers
    that are attached hold that delay, in every state the hook reaches:
    with no delay configured throughout they restore at once, with a delay
    configured throughout they start a timer with that delay. *)
Theorem configured_delay_is_held (evs : list Event) (o : Options) (w : World)
    (env : Env) :
  Forall (keeps_delay (delay o)) evs ->
  listeners (hook (run evs (mount o w))) = Some env ->
  env_delay env = delay o.
Proof.
  intros Hevs. revert env.
  assert (forall env, listeners (hook (mount o w)) = Some env ->
            env_delay env = delay o) as Hinit.
  { simpl. unfold subscribe. destruct (enabled o); [| done]. by intros env [= <-]. }
  generalize dependent (mount o w). induction Hevs as [| ev evs Hev _ IH].
  - intros s Hs. apply Hs.
  - intros s Hs. simpl. apply IH. by apply step_holds_delay.
Qed.

Lemma configured_delay_is_held_witness :
  let o := options None (Some 200%N) in
  let w := with_history_key "K0" page in
  let evs := [EvRender o; EvNavigate "K1"; EvSignal RouteChangeComplete;
              EvRender (options (Some "#list") (Some 200%N))] in
  let env := {| env_key := "K1"; env_selector := Some "#list";
                env_delay := Some 200%N |} in
  (Forall (keeps_delay (delay o)) evs
   /\ listeners (hook (run evs (mount o w))) = Some env)
  /\ env_delay env = delay o.
Proof.
  intros o w evs env.
  assert (Forall (keeps_delay (delay o)) evs) as Hevs by (by repeat constructor).
  split; [by split |].
  apply (configured_delay_is_held evs o w env Hevs). reflexivity.
Defined.
